(** * compare_profiles.py: the profile comparison engine

    A shallow embedding of [tools/benchmark_compare/compare_profiles.py]
    and the properties of its parser, classifier, diff engine and report
    header.

    Python values are modelled as follows.
    - [float] is IEEE 754 binary64, taken from the Standard Library's
      executable specification [SpecFloat] ([prec = 53], [emax = 1024]).
      Python raises [ZeroDivisionError] on a float division by zero, so
      division lives in the [result] monad.
    - [str] is [string]; a character is a code point below 256.
    - [dict] is [gmap string _], [set] is [gset string]; the order in which
      a set is iterated is not fixed by Python, so it is a parameter
      [set_iter] of the development, only known to enumerate the set.
    - [list.sort] is the stable sort on the key with [<], which is what
      Python computes when no key is a NaN.  With a NaN key the result of
      Python depends on the runs its algorithm finds, which is not
      followed here: what is stated of an order is stated for keys that
      are no NaN, or holds of every permutation of the list, or is about
      a list that Python finds to be one run and leaves as it is.
    - exceptions are the [Raise] case of [result].
    - [re.search] on the patterns given by the user and the decimal
      renderings of the format specifications are parameters; the three
      patterns of the parser itself are matched by scanners.  The engine
      is given twice: for patterns that are regular expressions, where
      [re.search] is a total function, and, in [Raising], with the
      [re.error] of a pattern that is not one. *)

From Stdlib Require Import ZArith Floats.SpecFloat String Ascii List Permutation Sorted Lia.
From stdpp Require Import base option list gmap sets strings sorting.

Local Open Scope Z_scope.

(** ** Exceptions *)

Inductive exn : Type :=
  | ValueError
  | ZeroDivisionError
  | KeyError
  | ReError.

Inductive result (A : Type) : Type :=
  | Ok (a : A)
  | Raise (e : exn).
Arguments Ok {A} a.
Arguments Raise {A} e.

Definition result_bind {A B : Type} (m : result A) (k : A -> result B) : result B :=
  match m with
  | Ok a => k a
  | Raise e => Raise e
  end.

#[global] Instance result_ret : MRet result := fun A a => Ok a.
#[global] Instance result_mbind : MBind result := fun A B k m => result_bind m k.

Definition is_ok {A : Type} (m : result A) : bool :=
  match m with Ok _ => true | Raise _ => false end.

(** ** Python floats *)

Module F64.

Definition prec : Z := 53.
Definition emax : Z := 1024.

Abbreviation float := spec_float.

(** The float of a Python [int] literal (exact for the small literals
    of the script: [0], [100], [200], [1000]). *)
Definition of_Z (z : Z) : float := binary_normalize prec emax z 0 false.
Arguments of_Z : simpl never.

Definition zero : float := S754_zero false.

Definition neg (x : float) : float := SFopp x.
Definition abs (x : float) : float := SFabs x.
Definition sub (x y : float) : float := SFsub prec emax x y.
Definition mul (x y : float) : float := SFmul prec emax x y.

Definition ltb (x y : float) : bool := SFltb x y.
Definition gtb (x y : float) : bool := SFltb y x.
Definition geb (x y : float) : bool := SFleb y x.
Definition eqb (x y : float) : bool := SFeqb x y.

Definition is_nan (x : float) : bool :=
  match x with S754_nan => true | _ => false end.

(** [x / y]: [ZeroDivisionError] when [y == 0] (either sign). *)
Definition div (x y : float) : result float :=
  if eqb y zero then Raise ZeroDivisionError else Ok (SFdiv prec emax x y).

(** Truth value of a float in a condition: false exactly for [0.0] and
    [-0.0]. *)
Definition truthy (x : float) : bool := negb (eqb x zero).

End F64.

Abbreviation float := spec_float.

(** ** The diff engine: deltas and percent change (lines 239-243) *)

(** [((delta / old) * 100) if old > 0 else (100 if new > 0 else 0)].
    The [int] results [100] and [0] are written as the floats of the same
    value: Python compares an [int] with a [float] by value. *)
Definition pct_change (old new delta : float) : result float :=
  if F64.gtb old F64.zero then
    q ← F64.div delta old;
    Ok (F64.mul q (F64.of_Z 100))
  else
    Ok (if F64.gtb new F64.zero then F64.of_Z 100 else F64.of_Z 0).

(** ** Strings *)

Local Open Scope string_scope.

(** The newline character, as a string. *)
Definition nl : string := String (ascii_of_nat 10) EmptyString.

(** [s.startswith(p)] *)
Fixpoint startswith (s p : string) : bool :=
  match p, s with
  | EmptyString, _ => true
  | String _ _, EmptyString => false
  | String c p', String d s' => Ascii.eqb c d && startswith s' p'
  end.

(** [p in s] *)
Fixpoint contains (s p : string) : bool :=
  startswith s p ||
  match s with
  | EmptyString => false
  | String _ s' => contains s' p
  end.

(** ** Function classifier (lines 138-149) *)

Inductive category : Type :=
  | YOUR_CODE
  | RUNTIME
  | EBITEN
  | ECS
  | OTHER.

Definition categorize_function (func_name : string) : category :=
  if startswith func_name "game_main/" then YOUR_CODE
  else if startswith func_name "runtime." then RUNTIME
  else if contains func_name "ebiten" || contains func_name "ebitenui" then EBITEN
  else if contains func_name "ecs" then ECS
  else OTHER.

(** ** Exclusion (lines 130-135)

    [re_search pattern name] stands for the truth value of Python's
    [re.search(pattern, name)]: the regular-expression engine is a
    parameter.  It is a total function: this is [should_exclude] for
    patterns that are regular expressions.  On a pattern that is not one
    [re.search] raises [re.error]; [Raising.should_exclude] below is the
    function with that exception. *)

Section Exclude.
Variable re_search : string -> string -> bool.

Fixpoint should_exclude (func_name : string) (exclude_patterns : list string) : bool :=
  match exclude_patterns with
  | [] => false
  | pattern :: rest =>
      if re_search pattern func_name then true
      else should_exclude func_name rest
  end.

End Exclude.

(** ** Number formatting (lines 152-167)

    The decimal renderings of Python's format specifications are
    parameters: [fmt_0f x] is [f"{x:.0f}"], [fmt_1f x] is [f"{x:.1f}"] and
    [fmt_comma_0f x] is [f"{x:,.0f}"]. *)

Section Format.
Variables fmt_0f fmt_1f fmt_comma_0f : float -> string.

Definition format_ms (ms : float) : string :=
  if F64.geb ms (F64.of_Z 1000) then fmt_comma_0f ms +:+ "ms"
  else fmt_0f ms +:+ "ms".

Definition format_change (old_val new_val : float) : result string :=
  if F64.eqb old_val F64.zero then
    if F64.eqb new_val F64.zero then Ok "0%"
    else Ok "+NEW"
  else
    q ← F64.div (F64.sub new_val old_val) old_val;
    let pct := F64.mul q (F64.of_Z 100) in
    let sign := if F64.gtb pct F64.zero then "+" else "" in
    Ok (sign +:+ fmt_0f pct +:+ "%").

(** ** Report header, durations and totals (lines 282-291) *)

Definition write_durations_and_totals
    (old_duration new_duration old_total new_total : option float)
    : result (list string) :=
  let out1 :=
    match old_duration with
    | Some d => if F64.truthy d then ["Old duration: " +:+ fmt_1f d +:+ "s" +:+ nl] else []
    | None => []
    end in
  let out2 :=
    match new_duration with
    | Some d => if F64.truthy d then ["New duration: " +:+ fmt_1f d +:+ "s" +:+ nl] else []
    | None => []
    end in
  match old_total, new_total with
  | Some ot, Some nt =>
      if F64.truthy ot && F64.truthy nt then
        let total_delta := F64.sub nt ot in
        total_pct ←
          (if F64.truthy ot then
             q ← F64.div total_delta ot; Ok (F64.mul q (F64.of_Z 100))
           else Ok (F64.of_Z 0));
        chg ← format_change ot nt;
        Ok (out1 ++ out2 ++
            [ "Old total samples: " +:+ format_ms ot +:+ nl;
              "New total samples: " +:+ format_ms nt +:+ nl;
              "Total sample delta: " +:+ format_ms total_delta +:+ " (" +:+ chg +:+ ")" +:+ nl ])%list
      else Ok (out1 ++ out2)%list
  | _, _ => Ok (out1 ++ out2)%list
  end.

End Format.

(** ** Report parser (lines 90-127)

    The three regular expressions of the parser are matched by hand-written
    scanners.  In each of them a greedy repetition is followed by a
    character outside its class, so the backtracking engine has a single
    way to match, except for the last blank run of a data row, which is
    treated in [match_name]. *)

(** [\s] and [str.strip()]: the white-space code points below 256. *)
Definition is_space (c : ascii) : bool :=
  let n := N_of_ascii c in
  ((9 <=? n) && (n <=? 13) || (28 <=? n) && (n <=? 32) || (n =? 133) || (n =? 160))%N.

(** [\d]: the decimal digits below 256. *)
Definition is_digit (c : ascii) : bool :=
  let n := N_of_ascii c in ((48 <=? n) && (n <=? 57))%N.

(** [[\d.]] *)
Definition is_numch (c : ascii) : bool := is_digit c || Ascii.eqb c ".".

(** The longest prefix of [s] whose characters satisfy [p], and the rest. *)
Fixpoint span (p : ascii -> bool) (s : string) : string * string :=
  match s with
  | EmptyString => (EmptyString, EmptyString)
  | String c s' =>
      if p c then let '(a, b) := span p s' in (String c a, b)
      else (EmptyString, s)
  end.

Definition lstrip (s : string) : string := snd (span is_space s).

Fixpoint rstrip (s : string) : string :=
  match s with
  | EmptyString => EmptyString
  | String c s' =>
      match rstrip s' with
      | EmptyString => if is_space c then EmptyString else String c EmptyString
      | r => String c r
      end
  end.

(** [s.strip()] *)
Definition strip (s : string) : string := rstrip (lstrip s).

(** [output.split("\n")] *)
Fixpoint split_nl (s : string) : list string :=
  match s with
  | EmptyString => [EmptyString]
  | String c s' =>
      if Ascii.eqb c (ascii_of_nat 10) then EmptyString :: split_nl s'
      else
        match split_nl s' with
        | l :: ls => String c l :: ls
        | [] => [String c EmptyString]
        end
  end.

(** *** [float(token)] on a token of digits and dots *)

Definition digit_val (c : ascii) : Z := Z.of_N (N_of_ascii c) - 48.

(** Reads a token left to right: the integer written by its digits, how
    many digits it has and how many of them follow the dot.  [None] on a
    second dot or on any other character. *)
Fixpoint scan_decimal (s : string) (seen_dot : bool) (acc : Z) (ndigits : nat) (nfrac : Z)
    : option (Z * nat * Z) :=
  match s with
  | EmptyString => Some (acc, ndigits, nfrac)
  | String c s' =>
      if is_digit c then
        scan_decimal s' seen_dot (10 * acc + digit_val c) (S ndigits)
                     (if seen_dot then nfrac + 1 else nfrac)
      else if Ascii.eqb c "." then
        if seen_dot then None else scan_decimal s' true acc ndigits nfrac
      else None
  end.

(** The binary64 nearest to [n / d] (ties to even), for [0 <= n] and
    [0 < d]. *)
Definition round_ratio (n d : Z) : float :=
  match n with
  | Z0 => S754_zero false
  | _ =>
      let '(q, e, l) := SFdiv_core_binary F64.prec F64.emax n 0 d 0 in
      binary_round_aux F64.prec F64.emax false q e l
  end.

(** [float(s)] for the tokens the parser passes to it, which match
    [[\d.]+]: a [ValueError] unless the token has at least one digit and
    at most one dot.  (Other characters never reach this function.) *)
Definition py_float (s : string) : result float :=
  match scan_decimal s false 0 0%nat 0 with
  | Some (n, S _, k) => Ok (round_ratio n (10 ^ k))
  | _ => Raise ValueError
  end.

(** [val if unit == "ms" else val * 1000] *)
Definition to_ms (val : float) (unit : string) : float :=
  if String.eqb unit "ms" then val else F64.mul val (F64.of_Z 1000).

(** *** The row pattern (lines 109-111) *)

(** [([\d.]+)(ms|s)] at the start of [s]: the token, the unit, the rest. *)
Definition match_numunit (s : string) : option (string * string * string) :=
  let '(tok, r) := span is_numch s in
  match tok with
  | EmptyString => None
  | _ =>
      match r with
      | String "m"%char (String "s"%char r') => Some (tok, "ms", r')
      | String "s"%char r' => Some (tok, "s", r')
      | _ => None
      end
  end.

(** [\s+] at the start of [s]: the rest. *)
Definition match_spaces1 (s : string) : option string :=
  let '(ws, r) := span is_space s in
  match ws with
  | EmptyString => None
  | _ => Some r
  end.

(** [\s+[\d.]+%] at the start of [s]: the rest. *)
Definition match_pct (s : string) : option string :=
  r ← match_spaces1 s;
  let '(tok, r') := span is_numch r in
  match tok with
  | EmptyString => None
  | _ =>
      match r' with
      | String "%"%char r'' => Some r''
      | _ => None
      end
  end.

Fixpoint last_char (s : string) : string :=
  match s with
  | EmptyString => EmptyString
  | String c EmptyString => s
  | String _ s' => last_char s'
  end.

(** [\s+(.+)$] on the rest of a line (which holds no newline): group 5.
    When only blanks are left, [\s+] gives its last blank back to [.+]. *)
Definition match_name (s : string) : option string :=
  let '(ws, r) := span is_space s in
  match r with
  | EmptyString =>
      if (2 <=? String.length ws)%nat then Some (last_char ws) else None
  | _ =>
      match ws with
      | EmptyString => None
      | _ => Some r
      end
  end.

(** [pattern.match(line)]: groups 1 to 5. *)
Definition match_row (line : string) : option (string * string * string * string * string) :=
  '(g1, g2, r1) ← match_numunit (lstrip line);
  r2 ← match_pct r1;
  r3 ← match_pct r2;
  r4 ← match_spaces1 r3;
  '(g3, g4, r5) ← match_numunit r4;
  r6 ← match_pct r5;
  g5 ← match_name r6;
  Some (g1, g2, g3, g4, g5).

(** *** The header patterns (lines 96 and 103) *)

Fixpoint strip_prefix (p s : string) : option string :=
  match p, s with
  | EmptyString, _ => Some s
  | String _ _, EmptyString => None
  | String c p', String d s' => if Ascii.eqb c d then strip_prefix p' s' else None
  end.

(** [Total samples\s*=\s*([\d.]+)(ms|s)] at the start of [s]. *)
Definition match_total_at (s : string) : option (string * string) :=
  r1 ← strip_prefix "Total samples" s;
  r2 ← strip_prefix "=" (lstrip r1);
  '(tok, unit, _) ← match_numunit (lstrip r2);
  Some (tok, unit).

(** [Duration:\s*([\d.]+)s] at the start of [s]. *)
Definition match_duration_at (s : string) : option string :=
  r1 ← strip_prefix "Duration:" s;
  let '(tok, r2) := span is_numch (lstrip r1) in
  match tok with
  | EmptyString => None
  | _ =>
      match r2 with
      | String "s"%char _ => Some tok
      | _ => None
      end
  end.

(** [re.search]: the leftmost position where the pattern matches. *)
Fixpoint re_search_with {A : Type} (match_at : string -> option A) (s : string) : option A :=
  match match_at s with
  | Some x => Some x
  | None =>
      match s with
      | EmptyString => None
      | String _ s' => re_search_with match_at s'
      end
  end.

(** *** [parse_pprof_output] *)

Fixpoint parse_lines (lines : list string) (functions : gmap string (float * float))
    : result (gmap string (float * float)) :=
  match lines with
  | [] => Ok functions
  | line :: rest =>
      match match_row line with
      | Some (g1, g2, g3, g4, g5) =>
          flat_val ← py_float g1;
          cum_val ← py_float g3;
          let func_name := strip g5 in
          let flat_ms := to_ms flat_val g2 in
          let cum_ms := to_ms cum_val g4 in
          parse_lines rest (<[func_name := (flat_ms, cum_ms)]> functions)
      | None => parse_lines rest functions
      end
  end.

Definition parse_pprof_output (output : string)
    : result (gmap string (float * float) * option float * option float) :=
  total_samples ←
    match re_search_with match_total_at output with
    | Some (tok, unit) => val ← py_float tok; Ok (Some (to_ms val unit))
    | None => Ok None
    end;
  duration ←
    match re_search_with match_duration_at output with
    | Some tok => d ← py_float tok; Ok (Some d)
    | None => Ok None
    end;
  functions ← parse_lines (split_nl output) ∅;
  Ok (functions, total_samples, duration).

(** ** Diff engine (lines 222-267 and 355-382) *)

(** The command-line values the engine reads. *)
Record args : Type := {
  threshold : float;
  min_delta : float;
  exclude : list string
}.

(** The ten-field tuple built at line 246; index 8 is [e_cum_delta]. *)
Record entry : Type := {
  e_name : string;
  e_category : category;
  e_old_flat : float;
  e_new_flat : float;
  e_flat_delta : float;
  e_flat_pct : float;
  e_old_cum : float;
  e_new_cum : float;
  e_cum_delta : float;
  e_cum_pct : float
}.

(** [d[name]] *)
Definition lookup_item {V : Type} (d : gmap string V) (name : string) : result V :=
  match d !! name with
  | Some v => Ok v
  | None => Raise KeyError
  end.

(** Lines 249-252. *)
Definition is_regression (a : args) (flat_delta flat_pct cum_delta cum_pct : float) : bool :=
  (F64.gtb cum_pct (threshold a) && F64.gtb (F64.abs cum_delta) (min_delta a))
  || (F64.gtb flat_pct (threshold a) && F64.gtb (F64.abs flat_delta) (min_delta a)).

(** Lines 253-256. *)
Definition is_improvement (a : args) (flat_delta flat_pct cum_delta cum_pct : float) : bool :=
  (F64.ltb cum_pct (F64.neg (threshold a)) && F64.gtb (F64.abs cum_delta) (min_delta a))
  || (F64.ltb flat_pct (F64.neg (threshold a)) && F64.gtb (F64.abs flat_delta) (min_delta a)).

(** The three lists filled by the loop of lines 235-263. *)
Record buckets : Type := {
  b_regressions : list entry;
  b_improvements : list entry;
  b_stable : list entry
}.

Definition no_buckets : buckets :=
  {| b_regressions := []; b_improvements := []; b_stable := [] |}.

(** Lines 236-246: the entry of one common name. *)
Definition make_entry (old_funcs new_funcs : gmap string (float * float)) (name : string)
    : result entry :=
  '(old_flat, old_cum) ← lookup_item old_funcs name;
  '(new_flat, new_cum) ← lookup_item new_funcs name;
  let flat_delta := F64.sub new_flat old_flat in
  let cum_delta := F64.sub new_cum old_cum in
  flat_pct ← pct_change old_flat new_flat flat_delta;
  cum_pct ← pct_change old_cum new_cum cum_delta;
  Ok {| e_name := name; e_category := categorize_function name;
        e_old_flat := old_flat; e_new_flat := new_flat;
        e_flat_delta := flat_delta; e_flat_pct := flat_pct;
        e_old_cum := old_cum; e_new_cum := new_cum;
        e_cum_delta := cum_delta; e_cum_pct := cum_pct |}.

(** Lines 249-263: one entry goes to one list. *)
Definition classify (a : args) (e : entry) (b : buckets) : buckets :=
  if is_regression a (e_flat_delta e) (e_flat_pct e) (e_cum_delta e) (e_cum_pct e) then
    {| b_regressions := b_regressions b ++ [e];
       b_improvements := b_improvements b;
       b_stable := b_stable b |}
  else if is_improvement a (e_flat_delta e) (e_flat_pct e) (e_cum_delta e) (e_cum_pct e) then
    {| b_regressions := b_regressions b;
       b_improvements := b_improvements b ++ [e];
       b_stable := b_stable b |}
  else
    {| b_regressions := b_regressions b;
       b_improvements := b_improvements b;
       b_stable := b_stable b ++ [e] |}.

(** The loop of lines 235-263, over the names in iteration order. *)
Fixpoint compare_loop (a : args) (old_funcs new_funcs : gmap string (float * float))
    (names : list string) (b : buckets) : result buckets :=
  match names with
  | [] => Ok b
  | name :: rest =>
      e ← make_entry old_funcs new_funcs name;
      compare_loop a old_funcs new_funcs rest (classify a e b)
  end.

(** *** [list.sort(key=..., reverse=...)]

    Python's sort is stable and compares with [<] only; with
    [reverse=True] the elements are ordered as if each comparison were
    reversed, equal elements keeping their order.  On keys that [<]
    orders totally (no NaN) the result is the one of this stable insertion
    sort.  On a list with a NaN key Python still returns a permutation of
    the list, but which one depends on the runs that its algorithm finds,
    and it need not be the one computed here: the order of a sorted list
    is only used where no key is a NaN (costs that are finite, keys above
    200), and on one list of three keys with a NaN in the middle that both
    leave as it is. *)

Section Sort.
Context {A : Type}.
(** [before y x]: [y] has to come strictly before [x]. *)
Variable before : A -> A -> bool.

Fixpoint insert_sorted (x : A) (l : list A) : list A :=
  match l with
  | [] => [x]
  | y :: l' => if before y x then y :: insert_sorted x l' else x :: y :: l'
  end.

Fixpoint stable_sort (l : list A) : list A :=
  match l with
  | [] => []
  | x :: l' => insert_sorted x (stable_sort l')
  end.

End Sort.

Definition sort_by_key {A : Type} (key : A -> float) (reverse : bool) (l : list A) : list A :=
  stable_sort
    (fun y x => if reverse then F64.ltb (key x) (key y) else F64.ltb (key y) (key x)) l.

(** *** The engine *)

(** The values of [main] that the report is rendered from. *)
Record comparison : Type := {
  common_names : gset string;
  excluded : gset string;
  regressions : list entry;
  improvements : list entry;
  stable : list entry;
  new_only_filtered : list (string * float * float);
  old_only_filtered : list (string * float * float)
}.

Section Engine.
Variable re_search : string -> string -> bool.
(** The order in which Python iterates a set, taken as a function of the
    set. *)
Variable set_iter : gset string -> list string.

(** Lines 225-228, over [list(common_names)]. *)
Fixpoint exclude_loop (a : args) (names : list string) (common excl : gset string)
    : gset string * gset string :=
  match names with
  | [] => (common, excl)
  | name :: rest =>
      if should_exclude re_search name (exclude a) then
        exclude_loop a rest (common ∖ {[name]}) ({[name]} ∪ excl)
      else exclude_loop a rest common excl
  end.

(** Lines 357-362 (and 376-381): the names of one table only whose
    cumulative cost is above 200 ms. *)
Fixpoint only_loop (a : args) (funcs : gmap string (float * float)) (names : list string)
    (acc : list (string * float * float)) : result (list (string * float * float)) :=
  match names with
  | [] => Ok acc
  | name :: rest =>
      if should_exclude re_search name (exclude a) then only_loop a funcs rest acc
      else
        '(_, cum) ← lookup_item funcs name;
        if F64.gtb cum (F64.of_Z 200) then
          item ← lookup_item funcs name;
          only_loop a funcs rest (acc ++ [(name, fst item, cum)])
        else only_loop a funcs rest acc
  end.

(** Lines 222-267 and 355-382 of [main]. *)
Definition diff (a : args) (old_funcs new_funcs : gmap string (float * float))
    : result comparison :=
  let common0 := dom old_funcs ∩ dom new_funcs in
  let '(common, excl) := exclude_loop a (set_iter common0) common0 ∅ in
  b ← compare_loop a old_funcs new_funcs (set_iter common) no_buckets;
  let regs := sort_by_key e_cum_delta true (b_regressions b) in
  let imps := sort_by_key e_cum_delta false (b_improvements b) in
  let new_only := dom new_funcs ∖ dom old_funcs ∖ excl in
  nof ← only_loop a new_funcs (set_iter new_only) [];
  let old_only := dom old_funcs ∖ dom new_funcs ∖ excl in
  oof ← only_loop a old_funcs (set_iter old_only) [];
  Ok {| common_names := common; excluded := excl;
        regressions := regs; improvements := imps; stable := b_stable b;
        new_only_filtered := sort_by_key (fun x => snd x) true nof;
        old_only_filtered := sort_by_key (fun x => snd x) true oof |}.

(** ** [main] (lines 210-397)

    [old_output] and [new_output] are what the two [run_pprof] calls
    returned.  The result holds everything the report is written from: the
    header lines of durations and totals and the comparison; the tables
    printed after them only format these values.  The exceptions of the
    parser leave [main] before the output is opened (line 270).  As
    [re_search] is total here, this is [main] for exclude patterns that
    are regular expressions; [Raising.main] below has the [re.error] of
    the others. *)

Variables fmt_0f fmt_1f fmt_comma_0f : float -> string.

Definition main (a : args) (old_output new_output : string)
    : result (list string * comparison) :=
  '(old_funcs, old_total, old_duration) ← parse_pprof_output old_output;
  '(new_funcs, new_total, new_duration) ← parse_pprof_output new_output;
  c ← diff a old_funcs new_funcs;
  header ← write_durations_and_totals fmt_0f fmt_1f fmt_comma_0f
              old_duration new_duration old_total new_total;
  Ok (header, c).

End Engine.

(** ** Exclude patterns that are not regular expressions

    [re.search(pattern, name)] compiles [pattern] before it searches and
    raises [re.error] when [pattern] is not a regular expression (as
    [*Path]).  Nothing in the program catches it, so it leaves
    [should_exclude], the loop that called it and [main].  Here
    [re_search pattern name] is [None] for that exception, and the
    functions of the engine that search are given again, in the order in
    which [main] runs them: the loop of lines 225-228 and the
    classification come before the output is opened at line 270, the
    loops of lines 357-362 and 376-381 after the header, the counts and
    the tables of regressions and improvements have been written. *)

Module Raising.
Section Raising.
Variable re_search : string -> string -> option bool.
Variable set_iter : gset string -> list string.
Variables fmt_0f fmt_1f fmt_comma_0f : float -> string.

(** Lines 130-135. *)
Fixpoint should_exclude (func_name : string) (exclude_patterns : list string) : result bool :=
  match exclude_patterns with
  | [] => Ok false
  | pattern :: rest =>
      match re_search pattern func_name with
      | None => Raise ReError
      | Some true => Ok true
      | Some false => should_exclude func_name rest
      end
  end.

(** Lines 225-228, over [list(common_names)]. *)
Fixpoint exclude_loop (a : args) (names : list string) (common excl : gset string)
    : result (gset string * gset string) :=
  match names with
  | [] => Ok (common, excl)
  | name :: rest =>
      x ← should_exclude name (exclude a);
      if x : bool then exclude_loop a rest (common ∖ {[name]}) ({[name]} ∪ excl)
      else exclude_loop a rest common excl
  end.

(** Lines 357-362 (and 376-381). *)
Fixpoint only_loop (a : args) (funcs : gmap string (float * float)) (names : list string)
    (acc : list (string * float * float)) : result (list (string * float * float)) :=
  match names with
  | [] => Ok acc
  | name :: rest =>
      x ← should_exclude name (exclude a);
      if x : bool then only_loop a funcs rest acc
      else
        '(_, cum) ← lookup_item funcs name;
        if F64.gtb cum (F64.of_Z 200) then
          item ← lookup_item funcs name;
          only_loop a funcs rest (acc ++ [(name, fst item, cum)])
        else only_loop a funcs rest acc
  end.

(** Lines 222-263 of [main]: the last statements that can raise before
    the output is opened at line 270. *)
Definition before_output (a : args) (old_funcs new_funcs : gmap string (float * float))
    : result (gset string * gset string * buckets) :=
  let common0 := dom old_funcs ∩ dom new_funcs in
  '(common, excl) ← exclude_loop a (set_iter common0) common0 ∅;
  b ← compare_loop a old_funcs new_funcs (set_iter common) no_buckets;
  Ok (common, excl, b).

(** Lines 216-267, 282-291 and 355-382 of [main], in the order of the
    source; what is written in between only formats the comparison. *)
Definition main (a : args) (old_output new_output : string)
    : result (list string * comparison) :=
  '(old_funcs, old_total, old_duration) ← parse_pprof_output old_output;
  '(new_funcs, new_total, new_duration) ← parse_pprof_output new_output;
  '(common, excl, b) ← before_output a old_funcs new_funcs;
  let regs := sort_by_key e_cum_delta true (b_regressions b) in
  let imps := sort_by_key e_cum_delta false (b_improvements b) in
  header ← write_durations_and_totals fmt_0f fmt_1f fmt_comma_0f
              old_duration new_duration old_total new_total;
  let new_only := dom new_funcs ∖ dom old_funcs ∖ excl in
  nof ← only_loop a new_funcs (set_iter new_only) [];
  let old_only := dom old_funcs ∖ dom new_funcs ∖ excl in
  oof ← only_loop a old_funcs (set_iter old_only) [];
  Ok (header,
      {| common_names := common; excluded := excl;
         regressions := regs; improvements := imps; stable := b_stable b;
         new_only_filtered := sort_by_key (fun x => snd x) true nof;
         old_only_filtered := sort_by_key (fun x => snd x) true oof |}).

End Raising.
End Raising.

(** ** Display of names and tables (lines 170-207) *)

(** [s.replace(old, new)] for an empty [old]: [new] goes before every
    character and at the end. *)
Fixpoint replace_empty (new s : string) : string :=
  match s with
  | EmptyString => new
  | String c s' => new +:+ String c (replace_empty new s')
  end.

(** [s.replace(old, new)] for a non-empty [old], left to right: [skip]
    counts the characters of the occurrence just replaced that are still
    to be passed over. *)
Fixpoint replace_from (old new : string) (skip : nat) (s : string) : string :=
  match s with
  | EmptyString => EmptyString
  | String c s' =>
      match skip with
      | S k => replace_from old new k s'
      | O =>
          if startswith s old
          then new +:+ replace_from old new (String.length old - 1) s'
          else String c (replace_from old new 0 s')
      end
  end.

(** [s.replace(old, new)] *)
Definition str_replace (old new s : string) : string :=
  match old with
  | EmptyString => replace_empty new s
  | _ => replace_from old new 0 s
  end.

(** The first [n] characters of [s]. *)
Fixpoint str_take (n : nat) (s : string) : string :=
  match n, s with
  | S k, String c s' => String c (str_take k s')
  | _, _ => EmptyString
  end.

(** [s[:k]] for an [int] [k]: a negative [k] counts from the end. *)
Definition str_slice_to (k : Z) (s : string) : string :=
  if (0 <=? k)%Z then str_take (Z.to_nat k) s
  else str_take (String.length s - Z.to_nat (- k)) s.

(** [l[:k]] for an [int] [k]. *)
Definition list_slice_to {A : Type} (k : Z) (l : list A) : list A :=
  if (0 <=? k)%Z then take (Z.to_nat k) l
  else take (length l - Z.to_nat (- k)) l.

(** The prefixes that [shorten_func] rewrites, in the order of lines
    173-178. *)
Definition shorten_rules : list (string * string) :=
  [ ("game_main/", "");
    ("github.com/hajimehoshi/ebiten/v2/", "ebiten/");
    ("github.com/ebitenui/ebitenui/", "ebitenui/");
    ("github.com/bytearena/ecs.", "ecs.");
    ("github.com/golang/freetype/", "freetype/");
    ("golang.org/x/sys/windows.", "windows.") ].

(** Lines 173-178: the six [replace] calls, one after the other. *)
Definition strip_known_prefixes (name : string) : string :=
  foldl (fun n rule => str_replace (fst rule) (snd rule) n) name shorten_rules.

(** [shorten_func(name, max_len)] (lines 170-182). *)
Definition shorten_func (name : string) (max_len : Z) : string :=
  let name := strip_known_prefixes name in
  if (max_len <? Z.of_nat (String.length name))%Z
  then str_slice_to (max_len - 3) name +:+ "..."
  else name.

(** [c * n] for a one-character string [c]. *)
Fixpoint str_repeat (c : ascii) (n : nat) : string :=
  match n with
  | O => EmptyString
  | S k => String c (str_repeat c k)
  end.

(** [s.ljust(w)] *)
Definition ljust (s : string) (w : nat) : string :=
  s +:+ str_repeat " " (w - String.length s).

(** [sep.join(l)] *)
Fixpoint str_join (sep : string) (l : list string) : string :=
  match l with
  | [] => EmptyString
  | [x] => x
  | x :: rest => x +:+ sep +:+ str_join sep rest
  end.

(** Lines 193-194, for one row: [col_widths[i] = max(col_widths[i],
    len(cell))] from column [i] on.  [None] is the [IndexError] of a row
    with more cells than there are headers. *)
Fixpoint widen (col_widths : list nat) (i : nat) (row : list string) : option (list nat) :=
  match row with
  | [] => Some col_widths
  | cell :: rest =>
      match col_widths !! i with
      | Some w => widen (<[i := Nat.max w (String.length cell)]> col_widths) (S i) rest
      | None => None
      end
  end.

(** Lines 192-194, for all rows. *)
Fixpoint widen_all (col_widths : list nat) (rows : list (list string)) : option (list nat) :=
  match rows with
  | [] => Some col_widths
  | row :: rest =>
      match widen col_widths 0 row with
      | Some ws => widen_all ws rest
      | None => None
      end
  end.

(** [cell.ljust(col_widths[i]) for i, cell in enumerate(cells)], from
    column [i] on. *)
Fixpoint ljust_cells (col_widths : list nat) (i : nat) (cells : list string)
    : option (list string) :=
  match cells with
  | [] => Some []
  | cell :: rest =>
      match col_widths !! i with
      | Some w =>
          match ljust_cells col_widths (S i) rest with
          | Some padded => Some (ljust cell w :: padded)
          | None => None
          end
      | None => None
      end
  end.

(** One written line: two blanks, the cells joined, a newline. *)
Definition table_line (sep : string) (cells : list string) : string :=
  "  " +:+ str_join sep cells +:+ nl.

Fixpoint row_lines (col_widths : list nat) (rows : list (list string))
    : option (list string) :=
  match rows with
  | [] => Some []
  | row :: rest =>
      match ljust_cells col_widths 0 row, row_lines col_widths rest with
      | Some cells, Some lines => Some (table_line " | " cells :: lines)
      | _, _ => None
      end
  end.

(** [print_table(headers, rows, out)] (lines 185-207): what is written to
    [out], one string per [write]; [None] is an [IndexError]. *)
Definition print_table (headers : list string) (rows : list (list string))
    : option (list string) :=
  match rows with
  | [] => Some ["  (none)" +:+ nl]
  | _ =>
      match widen_all (String.length <$> headers) rows with
      | None => None
      | Some col_widths =>
          match ljust_cells col_widths 0 headers, row_lines col_widths rows with
          | Some hs, Some lines =>
              Some (table_line " | " hs
                    :: table_line "-+-" (str_repeat "-" <$> take (length headers) col_widths)
                    :: lines)
          | _, _ => None
          end
      end
  end.

(** ** The tables of the report (lines 300-352, 365-371 and 384-390) *)

#[global] Instance category_eq_dec : EqDecision category.
Proof. solve_decision. Defined.

(** The display order of line 301. *)
Definition categories : list category := [YOUR_CODE; ECS; RUNTIME; EBITEN; OTHER].

(** Lines 303-305 and 313 (329-331 and 341 for the improvements): the
    entries of one category that are put in its table, [None] when the
    category has no entry and is skipped. *)
Definition category_entries (top : Z) (entries : list entry) (cat : category)
    : option (list entry) :=
  match filter (fun r => e_category r = cat) entries with
  | [] => None
  | cat_entries => Some (list_slice_to top cat_entries)
  end.

(** The categories that get a table, in display order, with their
    entries. *)
Definition category_groups (top : Z) (entries : list entry)
    : list (category * list entry) :=
  omap (fun cat => pair cat <$> category_entries top entries cat) categories.

Definition entry_headers : list string :=
  ["Function"; "Old Flat"; "New Flat"; "Flat Chg"; "Old Cum"; "New Cum"; "Cum Chg"].

Definition only_headers : list string := ["Function"; "Flat"; "Cum"].

Section Rows.
Variables fmt_0f fmt_comma_0f : float -> string.

(** Lines 315-323 (343-351): the row of one entry. *)
Definition entry_row (e : entry) : result (list string) :=
  flat_chg ← format_change fmt_0f (e_old_flat e) (e_new_flat e);
  cum_chg ← format_change fmt_0f (e_old_cum e) (e_new_cum e);
  Ok [ shorten_func (e_name e) 55;
       format_ms fmt_0f fmt_comma_0f (e_old_flat e);
       format_ms fmt_0f fmt_comma_0f (e_new_flat e);
       flat_chg;
       format_ms fmt_0f fmt_comma_0f (e_old_cum e);
       format_ms fmt_0f fmt_comma_0f (e_new_cum e);
       cum_chg ].

Fixpoint entry_rows (entries : list entry) : result (list (list string)) :=
  match entries with
  | [] => Ok []
  | e :: rest =>
      row ← entry_row e;
      rows ← entry_rows rest;
      Ok (row :: rows)
  end.

(** Lines 370 and 389: the rows of the new or removed functions. *)
Definition only_rows (top : Z) (items : list (string * float * float))
    : list (list string) :=
  (fun '(n, f, c) =>
     [shorten_func n 55; format_ms fmt_0f fmt_comma_0f f; format_ms fmt_0f fmt_comma_0f c])
  <$> list_slice_to top items.

End Rows.

(** ** Vocabulary of the statements *)

(** [p] is a prefix of [s]; [p] occurs in [s]. *)
Definition is_prefix_of (p s : string) : Prop := exists r, s = p +:+ r.
Definition occurs_in (p s : string) : Prop := exists a b, s = a +:+ p +:+ b.

(** A float that is [0.0] or [-0.0]; a float that is not below zero (a
    NaN is not below zero). *)
Definition is_zero (x : float) : Prop := F64.eqb x F64.zero = true.
Definition not_negative (x : float) : Prop := F64.ltb x F64.zero = false.

(** [re.search] on patterns without metacharacters, which match where they
    occur; the instance of [re_search] used on concrete inputs. *)
Definition literal_search (pattern name : string) : bool := contains name pattern.



(** The default configuration: threshold 30, floor 50, no pattern. *)
Definition default_args : args :=
  {| threshold := F64.of_Z 30; min_delta := F64.of_Z 50; exclude := [] |}.

(** A float that is neither infinite nor NaN; a cost table of such floats. *)
Definition is_finite (x : float) : bool :=
  match x with
  | S754_zero _ | S754_finite _ _ _ => true
  | _ => false
  end.
Definition finite_costs (funcs : gmap string (float * float)) : Prop :=
  forall name flat cum,
    funcs !! name = Some (flat, cum) -> is_finite flat = true /\ is_finite cum = true.

(** The conditions of the classification policy on one metric. *)
Definition metric_regressed (a : args) (delta pct : float) : Prop :=
  F64.gtb pct (threshold a) = true /\ F64.gtb (F64.abs delta) (min_delta a) = true.
Definition metric_improved (a : args) (delta pct : float) : Prop :=
  F64.ltb pct (F64.neg (threshold a)) = true /\ F64.gtb (F64.abs delta) (min_delta a) = true.

(** The policy as the specification words it. *)
Definition regression_condition (a : args) (e : entry) : Prop :=
  metric_regressed a (e_cum_delta e) (e_cum_pct e)
  \/ metric_regressed a (e_flat_delta e) (e_flat_pct e).
Definition improvement_condition (a : args) (e : entry) : Prop :=
  metric_improved a (e_cum_delta e) (e_cum_pct e)
  \/ metric_improved a (e_flat_delta e) (e_flat_pct e).

(** The entry that the loop of lines 235-263 builds for one of [names]. *)
Definition built (old_funcs new_funcs : gmap string (float * float))
    (names : list string) (e : entry) : Prop :=
  e_name e ∈ names /\ make_entry old_funcs new_funcs (e_name e) = Ok e.

(** A function name has an entry in a list of entries. *)
Definition listed (name : string) (l : list entry) : Prop :=
  exists e, e ∈ l /\ e_name e = name.

(** What one line of the extractor output adds to the table: nothing when
    it does not match the row pattern, else the stripped name with the two
    costs in milliseconds, or the exception of [float]. *)
Definition row_costs (line : string) : option (result (string * (float * float))) :=
  match match_row line with
  | None => None
  | Some (g1, g2, g3, g4, g5) =>
      Some (flat_val ← py_float g1;
            cum_val ← py_float g3;
            Ok (strip g5, (to_ms flat_val g2, to_ms cum_val g4)))
  end.

(** A float that a cost can be: zero, positive or plus infinity, with a
    clear sign bit; never a NaN. *)
Definition is_cost (x : float) : bool :=
  match x with
  | S754_zero false | S754_finite false _ _ | S754_infinity false => true
  | _ => false
  end.

(** How many characters of [s] satisfy [p]. *)
Fixpoint str_count (p : ascii -> bool) (s : string) : nat :=
  match s with
  | EmptyString => O
  | String c s' => (if p c then 1 else 0) + str_count p s'
  end.

Definition is_dot (c : ascii) : bool := Ascii.eqb c ".".

(** All the characters of [s] satisfy [p]. *)
Fixpoint str_all (p : ascii -> bool) (s : string) : bool :=
  match s with
  | EmptyString => true
  | String c s' => p c && str_all p s'
  end.

(** * Properties *)

(** ** Floats: comparisons *)

Ltac f64 :=
  unfold F64.gtb, F64.ltb, F64.geb, F64.eqb, F64.neg, F64.abs, F64.truthy,
    F64.zero, F64.is_nan in *.

Ltac float_cases x :=
  let s := fresh "s" in let m := fresh "m" in let e := fresh "e" in
  destruct x as [s|s| |s m e]; try destruct s.

(** Decides the goals left by two finite floats of one sign, which
    [SFcompare] orders by exponent, then by mantissa. *)
Ltac compare_cases :=
  repeat match goal with
         | |- context [Z.compare ?a ?b] => destruct (Z.compare_spec a b)
         end;
  try lia; try done; subst;
  rewrite ?Pos.compare_cont_spec;
  repeat match goal with
         | |- context [Pos.compare ?a ?b] => destruct (Pos.compare_spec a b)
         end;
  simpl; try done; try lia.

(** A value above a threshold and below its opposite: the threshold is
    negative. *)
Lemma above_and_below_opposite (p t : float) :
  F64.gtb p t = true -> F64.ltb p (F64.neg t) = true -> F64.ltb t F64.zero = true.
Proof.
  f64. unfold SFltb. float_cases p; float_cases t; simpl; done.
Qed.

(** Nothing is below a NaN. *)
Lemma SFltb_nan_r (x : float) : SFltb x S754_nan = false.
Proof. destruct x; reflexivity. Qed.

(** [SFleb] is a total preorder on the floats that are not NaN. *)
Lemma SFltb_false_leb (x y : float) :
  F64.is_nan x = false -> F64.is_nan y = false -> SFltb x y = false -> SFleb y x = true.
Proof.
  unfold SFltb, SFleb. float_cases x; float_cases y; simpl; try done; intros _ _.
  all: compare_cases.
Qed.

Lemma SFltb_not_nan (x y : float) :
  SFltb x y = true -> F64.is_nan x = false /\ F64.is_nan y = false.
Proof. unfold SFltb. destruct x, y; simpl; done. Qed.

Lemma SFleb_trans (x y z : float) :
  SFleb x y = true -> SFleb y z = true -> SFleb x z = true.
Proof.
  unfold SFleb. float_cases x; float_cases y; float_cases z; simpl; try done.
  all: compare_cases.
Qed.

(** ** Floats: arithmetic *)

Lemma sub_self (x : float) : F64.sub x x = S754_zero false \/ F64.sub x x = S754_nan.
Proof.
  float_cases x; simpl; auto; left;
    unfold F64.sub, SFsub; rewrite Z.min_id; unfold shl_align;
    rewrite !Z.sub_diag; reflexivity.
Qed.

Lemma is_zero_inv (x : float) : is_zero x -> exists s, x = S754_zero s.
Proof. unfold is_zero; f64. unfold SFeqb. float_cases x; simpl; try done; eauto. Qed.

Lemma positive_not_zero (x : float) : F64.gtb x F64.zero = true -> F64.eqb x F64.zero = false.
Proof. f64. unfold SFltb, SFeqb. float_cases x; simpl; done. Qed.

Lemma zero_not_above (p t : float) :
  is_zero p -> not_negative t -> F64.gtb p t = false.
Proof.
  intros [s ->]%is_zero_inv. unfold not_negative; f64. unfold SFltb.
  destruct s; float_cases t; simpl; done.
Qed.

Lemma zero_not_below_opposite (p t : float) :
  is_zero p -> not_negative t -> F64.ltb p (F64.neg t) = false.
Proof.
  intros [s ->]%is_zero_inv. unfold not_negative; f64. unfold SFltb.
  destruct s; float_cases t; simpl; done.
Qed.

Lemma abs_zero_not_above (d m : float) :
  is_zero d -> not_negative m -> F64.gtb (F64.abs d) m = false.
Proof.
  intros [s ->]%is_zero_inv. unfold not_negative; f64. unfold SFltb.
  destruct s; float_cases m; simpl; done.
Qed.

(** ** Percent change *)

Lemma pct_change_ok (old new delta : float) :
  exists p, pct_change old new delta = Ok p.
Proof.
  unfold pct_change. destruct (F64.gtb old F64.zero) eqn:Hpos; [|eauto].
  unfold F64.div. rewrite (positive_not_zero _ Hpos). cbn. eauto.
Qed.


(** With a baseline that is not negative, a zero delta gives a zero
    percent change. *)
Lemma pct_change_zero_delta (old new : float) :
  F64.geb old F64.zero = true -> is_zero (F64.sub new old) ->
  exists p, pct_change old new (F64.sub new old) = Ok p /\ is_zero p.
Proof.
  intros Hold Hd. unfold pct_change.
  destruct (F64.gtb old F64.zero) eqn:Hpos.
  - unfold F64.div. rewrite (positive_not_zero _ Hpos). cbn.
    destruct (is_zero_inv _ Hd) as [s ->]. eexists; split; [reflexivity|].
    revert Hpos. f64. unfold SFltb. float_cases old; simpl; try done; destruct s; done.
  - assert (is_zero old) as [so ->]%is_zero_inv.
    { revert Hold Hpos. unfold is_zero; f64. unfold SFleb, SFltb, SFeqb.
      float_cases old; simpl; done. }
    assert (F64.gtb new F64.zero = false) as ->.
    { revert Hd. unfold is_zero; f64. unfold F64.sub, SFsub, SFeqb, SFltb.
      destruct so; float_cases new; simpl; done. }
    eexists; split; [reflexivity | reflexivity].
Qed.

(** ** Strings *)

Lemma startswith_spec (s p : string) : startswith s p = true <-> is_prefix_of p s.
Proof.
  unfold is_prefix_of. revert s. induction p as [|c p IH]; intros s; simpl.
  - split; [intros _; exists s; reflexivity | intros _; destruct s; reflexivity].
  - destruct s as [|d s]; simpl.
    + split; [discriminate | intros [r Hr]; discriminate].
    + rewrite andb_true_iff, IH, Ascii.eqb_eq. split.
      * intros [-> [r ->]]. exists r. reflexivity.
      * intros [r Hr]. injection Hr as -> ->. split; [reflexivity | exists r; reflexivity].
Qed.

Lemma contains_spec (s p : string) : contains s p = true <-> occurs_in p s.
Proof.
  unfold occurs_in. induction s as [|c s IH]; cbn [contains].
  - rewrite orb_false_r, startswith_spec. split.
    + intros [r Hr]. exists EmptyString, r. exact Hr.
    + intros [a [b Hab]]. destruct a; [exists b; exact Hab | discriminate].
  - rewrite orb_true_iff, startswith_spec, IH. split.
    + intros [[r Hr] | [a [b Hab]]].
      * exists EmptyString, r. exact Hr.
      * exists (String c a), b. simpl. rewrite Hab. reflexivity.
    + intros [a [b Hab]]. destruct a as [|c' a]; simpl in Hab.
      * left. exists b. exact Hab.
      * right. injection Hab as -> ->. exists a, b. reflexivity.
Qed.



(** ** Function classifier *)

(** C9. The category of a name follows the first rule that matches, in the
    order: prefix [game_main/], prefix [runtime.], an occurrence of
    [ebiten] or [ebitenui], an occurrence of [ecs], and [OTHER] when no
    rule matches; a rule applies only when all the earlier ones fail. *)
Theorem categorize_function_first_match (func_name : string) :
  (is_prefix_of "game_main/" func_name ->
     categorize_function func_name = YOUR_CODE)
  /\ (~ is_prefix_of "game_main/" func_name ->
      is_prefix_of "runtime." func_name ->
      categorize_function func_name = RUNTIME)
  /\ (~ is_prefix_of "game_main/" func_name ->
      ~ is_prefix_of "runtime." func_name ->
      occurs_in "ebiten" func_name \/ occurs_in "ebitenui" func_name ->
      categorize_function func_name = EBITEN)
  /\ (~ is_prefix_of "game_main/" func_name ->
      ~ is_prefix_of "runtime." func_name ->
      ~ occurs_in "ebiten" func_name ->
      ~ occurs_in "ebitenui" func_name ->
      occurs_in "ecs" func_name ->
      categorize_function func_name = ECS)
  /\ (~ is_prefix_of "game_main/" func_name ->
      ~ is_prefix_of "runtime." func_name ->
      ~ occurs_in "ebiten" func_name ->
      ~ occurs_in "ebitenui" func_name ->
      ~ occurs_in "ecs" func_name ->
      categorize_function func_name = OTHER).
Proof.
  unfold categorize_function.
  rewrite <- !startswith_spec, <- !contains_spec.
  destruct (startswith func_name "game_main/"), (startswith func_name "runtime."),
    (contains func_name "ebiten"), (contains func_name "ebitenui"),
    (contains func_name "ecs"); simpl; intuition congruence.
Qed.

(** A runtime-prefixed name that also holds the UI and entity-framework
    fragments is [RUNTIME]; under the own-code prefix it is [YOUR_CODE]. *)
Lemma categorize_function_first_match_witness :
  categorize_function "game_main/runtime.ebiten.ecs" = YOUR_CODE
  /\ categorize_function "runtime.ebiten.ecs" = RUNTIME.
Proof.
  split.
  - apply (proj1 (categorize_function_first_match "game_main/runtime.ebiten.ecs")).
    exists "runtime.ebiten.ecs". reflexivity.
  - apply (proj1 (proj2 (categorize_function_first_match "runtime.ebiten.ecs"))).
    + intros [r Hr]. discriminate Hr.
    + exists "ebiten.ecs". reflexivity.
Defined.

(** ** Classification policy *)

Lemma is_regression_spec (a : args) (e : entry) :
  is_regression a (e_flat_delta e) (e_flat_pct e) (e_cum_delta e) (e_cum_pct e) = true
  <-> regression_condition a e.
Proof.
  unfold is_regression, regression_condition, metric_regressed.
  rewrite orb_true_iff, !andb_true_iff. reflexivity.
Qed.

Lemma is_improvement_spec (a : args) (e : entry) :
  is_improvement a (e_flat_delta e) (e_flat_pct e) (e_cum_delta e) (e_cum_pct e) = true
  <-> improvement_condition a e.
Proof.
  unfold is_improvement, improvement_condition, metric_improved.
  rewrite orb_true_iff, !andb_true_iff. reflexivity.
Qed.

Lemma metric_exclusive (a : args) (delta pct : float) :
  not_negative (threshold a) ->
  ~ (metric_regressed a delta pct /\ metric_improved a delta pct).
Proof.
  unfold not_negative, metric_regressed, metric_improved.
  intros Ht [[Hup _] [Hdown _]].
  rewrite (above_and_below_opposite _ _ Hup Hdown) in Ht. discriminate.
Qed.

Lemma make_entry_inv (old_funcs new_funcs : gmap string (float * float))
    (name : string) (e : entry) :
  make_entry old_funcs new_funcs name = Ok e ->
  exists old_flat old_cum new_flat new_cum,
    old_funcs !! name = Some (old_flat, old_cum)
    /\ new_funcs !! name = Some (new_flat, new_cum)
    /\ e_name e = name
    /\ e_category e = categorize_function name
    /\ e_old_flat e = old_flat /\ e_new_flat e = new_flat
    /\ e_old_cum e = old_cum /\ e_new_cum e = new_cum
    /\ e_flat_delta e = F64.sub new_flat old_flat
    /\ e_cum_delta e = F64.sub new_cum old_cum
    /\ pct_change old_flat new_flat (F64.sub new_flat old_flat) = Ok (e_flat_pct e)
    /\ pct_change old_cum new_cum (F64.sub new_cum old_cum) = Ok (e_cum_pct e).
Proof.
  unfold make_entry, lookup_item.
  destruct (old_funcs !! name) as [[old_flat old_cum]|]; [|discriminate].
  destruct (new_funcs !! name) as [[new_flat new_cum]|]; [|discriminate].
  cbn.
  destruct (pct_change old_flat new_flat _) as [fp|] eqn:Hfp; [|discriminate].
  destruct (pct_change old_cum new_cum _) as [cp|] eqn:Hcp; [|discriminate].
  cbn. intros [= <-]. cbn. exists old_flat, old_cum, new_flat, new_cum.
  repeat split; assumption.
Qed.

Lemma make_entry_ok (old_funcs new_funcs : gmap string (float * float)) (name : string) :
  name ∈ dom old_funcs -> name ∈ dom new_funcs ->
  exists e, make_entry old_funcs new_funcs name = Ok e.
Proof.
  intros [[old_flat old_cum] Ho]%elem_of_dom [[new_flat new_cum] Hn]%elem_of_dom.
  unfold make_entry, lookup_item. rewrite Ho, Hn. cbn.
  destruct (pct_change_ok old_flat new_flat (F64.sub new_flat old_flat)) as [fp ->].
  destruct (pct_change_ok old_cum new_cum (F64.sub new_cum old_cum)) as [cp ->].
  cbn. eauto.
Qed.

(** C1 (amended). With a threshold that is not negative, on each metric
    taken alone the regression condition and the improvement condition
    exclude each other; a function that satisfies the regression condition
    is a regression, whatever the improvement condition; and a function of
    non-negative baseline costs whose two deltas are zero is classified
    stable. *)
Theorem conditions_exclusive_per_metric
    (a : args) (old_funcs new_funcs : gmap string (float * float))
    (name : string) (e : entry) :
  not_negative (threshold a) ->
  make_entry old_funcs new_funcs name = Ok e ->
  ~ (metric_regressed a (e_cum_delta e) (e_cum_pct e)
     /\ metric_improved a (e_cum_delta e) (e_cum_pct e))
  /\ ~ (metric_regressed a (e_flat_delta e) (e_flat_pct e)
        /\ metric_improved a (e_flat_delta e) (e_flat_pct e))
  /\ (regression_condition a e ->
      forall b, b_regressions (classify a e b) = (b_regressions b ++ [e])%list
                /\ b_improvements (classify a e b) = b_improvements b)
  /\ (F64.geb (e_old_flat e) F64.zero = true ->
      F64.geb (e_old_cum e) F64.zero = true ->
      is_zero (e_flat_delta e) -> is_zero (e_cum_delta e) ->
      ~ regression_condition a e /\ ~ improvement_condition a e
      /\ forall b, b_stable (classify a e b) = (b_stable b ++ [e])%list).
Proof.
  intros Ht He. split; [by apply metric_exclusive|]. split; [by apply metric_exclusive|].
  split.
  { intros Hr%is_regression_spec b. unfold classify. rewrite Hr. split; reflexivity. }
  intros Hof Hoc Hfd Hcd.
  destruct (make_entry_inv _ _ _ _ He)
    as (of_ & oc & nf & nc & _ & _ & _ & _ & Eof & Enf & Eoc & Enc & Efd & Ecd & Hfp & Hcp).
  rewrite Eof in Hof. rewrite Eoc in Hoc. rewrite Efd in Hfd. rewrite Ecd in Hcd.
  destruct (pct_change_zero_delta _ _ Hof Hfd) as (fp & Hfp' & Zfp).
  destruct (pct_change_zero_delta _ _ Hoc Hcd) as (cp & Hcp' & Zcp).
  rewrite Hfp in Hfp'. rewrite Hcp in Hcp'.
  injection Hfp' as Hfp'. injection Hcp' as Hcp'.
  assert (Hreg : ~ regression_condition a e).
  { unfold regression_condition, metric_regressed. rewrite Hfp', Hcp'.
    rewrite (zero_not_above _ _ Zfp Ht), (zero_not_above _ _ Zcp Ht).
    intros [[? _]|[? _]]; discriminate. }
  assert (Himp : ~ improvement_condition a e).
  { unfold improvement_condition, metric_improved. rewrite Hfp', Hcp'.
    rewrite (zero_not_below_opposite _ _ Zfp Ht), (zero_not_below_opposite _ _ Zcp Ht).
    intros [[? _]|[? _]]; discriminate. }
  split; [exact Hreg|]. split; [exact Himp|].
  intros b. unfold classify.
  destruct (is_regression a _ _ _ _) eqn:R.
  { exfalso. apply Hreg, is_regression_spec, R. }
  destruct (is_improvement a _ _ _ _) eqn:I.
  { exfalso. apply Himp, is_improvement_spec, I. }
  reflexivity.
Qed.

(** A function that costs 100 ms in both runs. *)
Lemma conditions_exclusive_per_metric_witness :
  let t : gmap string (float * float) := {[ "f" := (F64.of_Z 100, F64.of_Z 100) ]} in
  exists e,
    make_entry t t "f" = Ok e
    /\ ~ regression_condition default_args e /\ ~ improvement_condition default_args e
    /\ forall b, b_stable (classify default_args e b) = (b_stable b ++ [e])%list.
Proof.
  intros t.
  pose (e := {| e_name := "f"; e_category := OTHER;
                e_old_flat := F64.of_Z 100; e_new_flat := F64.of_Z 100;
                e_flat_delta := F64.zero; e_flat_pct := F64.zero;
                e_old_cum := F64.of_Z 100; e_new_cum := F64.of_Z 100;
                e_cum_delta := F64.zero; e_cum_pct := F64.zero |}).
  assert (He : make_entry t t "f" = Ok e) by (vm_compute; reflexivity).
  exists e. split; [exact He|].
  apply (conditions_exclusive_per_metric default_args t t "f" e);
    [reflexivity | exact He | reflexivity | reflexivity | reflexivity | reflexivity].
Defined.

(** C1, as stated, fails: with the default threshold 30 and floor 50, a
    function whose cumulative cost goes from 1000 ms to 2000 ms while its
    flat cost goes from 200 ms to 100 ms satisfies the regression condition
    and the improvement condition at once. *)
Lemma regression_and_improvement_together :
  let old_funcs : gmap string (float * float) := {[ "f" := (F64.of_Z 200, F64.of_Z 1000) ]} in
  let new_funcs : gmap string (float * float) := {[ "f" := (F64.of_Z 100, F64.of_Z 2000) ]} in
  exists e,
    make_entry old_funcs new_funcs "f" = Ok e
    /\ regression_condition default_args e /\ improvement_condition default_args e.
Proof.
  intros old_funcs new_funcs.
  eexists. split; [vm_compute; reflexivity|].
  split; [left | right]; split; vm_compute; reflexivity.
Qed.

(** ** The stable sort *)

Section SortFacts.
Context {A : Type}.
Variable before : A -> A -> bool.

Lemma insert_sorted_perm (x : A) (l : list A) : insert_sorted before x l ≡ₚ x :: l.
Proof.
  induction l as [|y l IH]; simpl; [reflexivity|].
  destruct (before y x); [|reflexivity].
  rewrite IH. apply perm_swap.
Qed.

Lemma stable_sort_perm (l : list A) : stable_sort before l ≡ₚ l.
Proof.
  induction l as [|x l IH]; simpl; [reflexivity|].
  rewrite insert_sorted_perm, IH. reflexivity.
Qed.

Lemma stable_sort_elem_of (x : A) (l : list A) : x ∈ stable_sort before l <-> x ∈ l.
Proof. rewrite (stable_sort_perm l). reflexivity. Qed.

Lemma stable_sort_nil_inv (l : list A) : l = [] -> stable_sort before l = [].
Proof. intros ->. reflexivity. Qed.

(** The sort puts [l] in the order [R] when, on the elements of [l] (which
    satisfy [P]), [before] decides a total preorder [R]. *)
Variable P : A -> Prop.
Variable R : A -> A -> Prop.
Hypothesis not_before : forall x y, P x -> P y -> before y x = false -> R x y.
Hypothesis is_before : forall x y, P x -> P y -> before y x = true -> R y x.
Hypothesis R_trans : forall x y z, R x y -> R y z -> R x z.

Lemma insert_sorted_sorted (x : A) (l : list A) :
  P x -> Forall P l -> StronglySorted R l -> StronglySorted R (insert_sorted before x l).
Proof.
  intros Px Pl Hl. induction Hl as [|y l Hl IH Hy]; simpl.
  - repeat constructor.
  - apply Forall_cons in Pl as [Py Pl].
    destruct (before y x) eqn:Hb.
    + constructor; [by apply IH|].
      rewrite (insert_sorted_perm x l). constructor; [|exact Hy].
      by apply is_before.
    + assert (Rxy : R x y) by (by apply not_before).
      constructor; [by constructor|].
      constructor; [exact Rxy|].
      eapply Forall_impl; [exact Hy|]. intros z Hz. by eapply R_trans.
Qed.

Lemma stable_sort_sorted (l : list A) :
  Forall P l -> StronglySorted R (stable_sort before l).
Proof.
  induction l as [|x l IH]; simpl; intros Pl; [constructor|].
  apply Forall_cons in Pl as [Px Pl].
  apply insert_sorted_sorted; [exact Px | | by apply IH].
  by rewrite (stable_sort_perm l).
Qed.

End SortFacts.

Lemma SFltb_leb (x y : float) : SFltb x y = true -> SFleb x y = true.
Proof. unfold SFltb, SFleb. destruct (SFcompare x y) as [[]|]; done. Qed.

Lemma sort_by_key_perm {A : Type} (key : A -> float) (reverse : bool) (l : list A) :
  sort_by_key key reverse l ≡ₚ l.
Proof. apply stable_sort_perm. Qed.

(** With [reverse=True] the keys come out non-increasing. *)
Lemma sort_by_key_descending {A : Type} (key : A -> float) (l : list A) :
  Forall (fun x => F64.is_nan (key x) = false) l ->
  StronglySorted (fun x y => F64.geb (key x) (key y) = true) (sort_by_key key true l).
Proof.
  apply stable_sort_sorted; unfold F64.geb, F64.ltb.
  - intros x y Hx Hy Hlt. by apply SFltb_false_leb.
  - intros x y Hx Hy Hlt. by apply SFltb_leb.
  - intros x y z Hxy Hyz. by eapply SFleb_trans.
Qed.

(** Without [reverse] they come out non-decreasing. *)
Lemma sort_by_key_ascending {A : Type} (key : A -> float) (l : list A) :
  Forall (fun x => F64.is_nan (key x) = false) l ->
  StronglySorted (fun x y => F64.geb (key y) (key x) = true) (sort_by_key key false l).
Proof.
  apply stable_sort_sorted; unfold F64.geb, F64.ltb.
  - intros x y Hx Hy Hlt. by apply SFltb_false_leb.
  - intros x y Hx Hy Hlt. by apply SFltb_leb.
  - intros x y z Hxy Hyz. by eapply SFleb_trans.
Qed.

(** ** The classification loop *)


Lemma classify_regressions (a : args) (e0 : entry) (b : buckets) (e : entry) :
  e ∈ b_regressions (classify a e0 b)
  <-> e ∈ b_regressions b \/ (e = e0 /\ regression_condition a e0).
Proof.
  unfold classify. rewrite <- is_regression_spec.
  destruct (is_regression a _ _ _ _); [|destruct (is_improvement a _ _ _ _)]; cbn;
    rewrite ?elem_of_app, ?list_elem_of_singleton; intuition congruence.
Qed.

Lemma classify_improvements (a : args) (e0 : entry) (b : buckets) (e : entry) :
  e ∈ b_improvements (classify a e0 b)
  <-> e ∈ b_improvements b
      \/ (e = e0 /\ ~ regression_condition a e0 /\ improvement_condition a e0).
Proof.
  unfold classify. rewrite <- is_regression_spec, <- is_improvement_spec.
  destruct (is_regression a _ _ _ _); [|destruct (is_improvement a _ _ _ _)]; cbn;
    rewrite ?elem_of_app, ?list_elem_of_singleton; intuition congruence.
Qed.

Lemma classify_stable (a : args) (e0 : entry) (b : buckets) (e : entry) :
  e ∈ b_stable (classify a e0 b)
  <-> e ∈ b_stable b
      \/ (e = e0 /\ ~ regression_condition a e0 /\ ~ improvement_condition a e0).
Proof.
  unfold classify. rewrite <- is_regression_spec, <- is_improvement_spec.
  destruct (is_regression a _ _ _ _); [|destruct (is_improvement a _ _ _ _)]; cbn;
    rewrite ?elem_of_app, ?list_elem_of_singleton; intuition congruence.
Qed.

Lemma classify_length (a : args) (e0 : entry) (b : buckets) :
  (length (b_regressions (classify a e0 b)) + length (b_improvements (classify a e0 b))
   + length (b_stable (classify a e0 b))
   = S (length (b_regressions b) + length (b_improvements b) + length (b_stable b)))%nat.
Proof.
  unfold classify.
  destruct (is_regression a _ _ _ _); [|destruct (is_improvement a _ _ _ _)]; cbn;
    rewrite length_app; cbn; lia.
Qed.

Section Loop.
Variable a : args.
Variables old_funcs new_funcs : gmap string (float * float).

Lemma compare_loop_ok (names : list string) (b : buckets) :
  Forall (fun name => name ∈ dom old_funcs /\ name ∈ dom new_funcs) names ->
  exists b', compare_loop a old_funcs new_funcs names b = Ok b'.
Proof.
  revert b. induction names as [|name rest IH]; intros b Hn; cbn; [eauto|].
  apply Forall_cons in Hn as [[Ho Hnw] Hrest].
  destruct (make_entry_ok _ _ _ Ho Hnw) as [e ->]. cbn. by apply IH.
Qed.


Lemma built_cons (name : string) (rest : list string) (e0 e : entry) :
  make_entry old_funcs new_funcs name = Ok e0 ->
  built old_funcs new_funcs (name :: rest) e <-> e = e0 \/ built old_funcs new_funcs rest e.
Proof.
  intros He0. unfold built. rewrite elem_of_cons. split.
  - intros [[Hn|Hn] He]; [left | right; by split].
    rewrite Hn in He. congruence.
  - intros [->|[Hn He]]; [|split; [by right | exact He]].
    destruct (make_entry_inv _ _ _ _ He0) as (?&?&?&?&_&_&Hname&_).
    rewrite Hname. split; [by left | exact He0].
Qed.

Lemma compare_loop_spec (names : list string) (b b' : buckets) :
  compare_loop a old_funcs new_funcs names b = Ok b' ->
  forall e,
    (e ∈ b_regressions b'
     <-> e ∈ b_regressions b \/ (built old_funcs new_funcs names e /\ regression_condition a e))
    /\ (e ∈ b_improvements b'
        <-> e ∈ b_improvements b
            \/ (built old_funcs new_funcs names e /\ ~ regression_condition a e /\ improvement_condition a e))
    /\ (e ∈ b_stable b'
        <-> e ∈ b_stable b
            \/ (built old_funcs new_funcs names e /\ ~ regression_condition a e /\ ~ improvement_condition a e)).
Proof.
  revert b. induction names as [|name rest IH]; intros b; cbn.
  - intros [= <-] e. unfold built. setoid_rewrite elem_of_nil. intuition.
  - destruct (make_entry old_funcs new_funcs name) as [e0|] eqn:He0; [|discriminate].
    cbn. intros Hloop e. destruct (IH _ Hloop e) as (Hr & Hi & Hs).
    rewrite Hr, Hi, Hs, classify_regressions, classify_improvements, classify_stable.
    rewrite !(built_cons name rest e0 e He0).
    intuition (subst; auto).
Qed.

Lemma compare_loop_length (names : list string) (b b' : buckets) :
  compare_loop a old_funcs new_funcs names b = Ok b' ->
  (length (b_regressions b') + length (b_improvements b') + length (b_stable b')
   = length names
     + (length (b_regressions b) + length (b_improvements b) + length (b_stable b)))%nat.
Proof.
  revert b. induction names as [|name rest IH]; intros b; cbn.
  - intros [= <-]. reflexivity.
  - destruct (make_entry old_funcs new_funcs name) as [e0|] eqn:He0; [|discriminate].
    cbn. intros Hloop. rewrite (IH _ Hloop), classify_length. lia.
Qed.

End Loop.

(** ** The engine *)

Section EngineFacts.
Variable re_search : string -> string -> bool.
Variable set_iter : gset string -> list string.
Variable a : args.

Lemma exclude_loop_spec (names : list string) (common excl common' excl' : gset string) :
  exclude_loop re_search a names common excl = (common', excl') ->
  forall n,
    (n ∈ common' <-> n ∈ common /\ ~ (n ∈ names /\ should_exclude re_search n (exclude a) = true))
    /\ (n ∈ excl' <-> n ∈ excl \/ (n ∈ names /\ should_exclude re_search n (exclude a) = true)).
Proof.
  revert common excl. induction names as [|name rest IH]; intros common excl; cbn.
  - intros [= <- <-] n. rewrite elem_of_nil. intuition.
  - destruct (should_exclude re_search name (exclude a)) eqn:Hx; intros Hloop n;
      destruct (IH _ _ Hloop n) as [Hc He]; rewrite Hc, He, elem_of_cons.
    + rewrite elem_of_difference, elem_of_union, elem_of_singleton.
      destruct (decide (n = name)) as [->|Hne]; intuition congruence.
    + destruct (decide (n = name)) as [->|Hne]; intuition congruence.
Qed.

Lemma only_loop_ok (funcs : gmap string (float * float)) (names : list string)
    (acc : list (string * float * float)) :
  Forall (fun n => n ∈ dom funcs) names ->
  exists acc', only_loop re_search a funcs names acc = Ok acc'.
Proof.
  revert acc. induction names as [|name rest IH]; intros acc Hn; cbn; [eauto|].
  apply Forall_cons in Hn as [[[f c] Hf]%elem_of_dom Hrest].
  destruct (should_exclude re_search name (exclude a)); [by apply IH|].
  unfold lookup_item. rewrite Hf. cbn.
  destruct (F64.gtb c (F64.of_Z 200)); cbn; by apply IH.
Qed.


Lemma only_loop_spec (funcs : gmap string (float * float)) (names : list string)
    (acc acc' : list (string * float * float)) :
  only_loop re_search a funcs names acc = Ok acc' ->
  forall n f c,
    (n, f, c) ∈ acc'
    <-> (n, f, c) ∈ acc
        \/ (n ∈ names /\ should_exclude re_search n (exclude a) = false
            /\ funcs !! n = Some (f, c) /\ F64.gtb c (F64.of_Z 200) = true).
Proof.
  revert acc. induction names as [|name rest IH]; intros acc; cbn.
  - intros [= <-] n f c. rewrite elem_of_nil. intuition.
  - destruct (should_exclude re_search name (exclude a)) eqn:Hx.
    { intros Hloop n f c. rewrite (IH _ Hloop), elem_of_cons.
      destruct (decide (n = name)) as [->|Hne]; intuition congruence. }
    unfold lookup_item. destruct (funcs !! name) as [[f0 c0]|] eqn:Hf; cbn; [|discriminate].
    destruct (F64.gtb c0 (F64.of_Z 200)) eqn:Hc; cbn; intros Hloop n f c;
      rewrite (IH _ Hloop), ?elem_of_app, ?list_elem_of_singleton, elem_of_cons.
    + split.
      * intros [[H|H]|H]; [by left | | right; intuition].
        injection H as -> -> ->. right. intuition.
      * intros [H|([->|H] & Hx' & Hf' & Hc')]; [by left; left | | right; intuition].
        left; right. congruence.
    + split.
      * intros [H|H]; [by left | right; intuition].
      * intros [H|([->|H] & Hx' & Hf' & Hc')]; [by left | | right; intuition].
        congruence.
Qed.

Lemma diff_inv (old_funcs new_funcs : gmap string (float * float)) (c : comparison) :
  diff re_search set_iter a old_funcs new_funcs = Ok c ->
  exists b nof oof,
    exclude_loop re_search a (set_iter (dom old_funcs ∩ dom new_funcs))
                 (dom old_funcs ∩ dom new_funcs) ∅
    = (common_names c, excluded c)
    /\ compare_loop a old_funcs new_funcs (set_iter (common_names c)) no_buckets = Ok b
    /\ regressions c = sort_by_key e_cum_delta true (b_regressions b)
    /\ improvements c = sort_by_key e_cum_delta false (b_improvements b)
    /\ stable c = b_stable b
    /\ only_loop re_search a new_funcs
                 (set_iter (dom new_funcs ∖ dom old_funcs ∖ excluded c)) [] = Ok nof
    /\ new_only_filtered c = sort_by_key (fun x => snd x) true nof
    /\ only_loop re_search a old_funcs
                 (set_iter (dom old_funcs ∖ dom new_funcs ∖ excluded c)) [] = Ok oof
    /\ old_only_filtered c = sort_by_key (fun x => snd x) true oof.
Proof.
  unfold diff.
  destruct (exclude_loop re_search a _ _ ∅) as [common excl] eqn:Hx.
  destruct (compare_loop a old_funcs new_funcs (set_iter common) no_buckets) as [b|] eqn:Hb;
    [|discriminate].
  cbn.
  destruct (only_loop re_search a new_funcs _ []) as [nof|] eqn:Hn; [|discriminate].
  cbn.
  destruct (only_loop re_search a old_funcs _ []) as [oof|] eqn:Ho; [|discriminate].
  cbn. intros [= <-]. cbn. exists b, nof, oof. repeat split; assumption.
Qed.


(** From here on, [set_iter] enumerates its set. *)
Hypothesis set_iter_perm : forall X : gset string, set_iter X ≡ₚ elements X.

Lemma elem_of_set_iter (X : gset string) (n : string) : n ∈ set_iter X <-> n ∈ X.
Proof. rewrite (set_iter_perm X). apply elem_of_elements. Qed.

Lemma length_set_iter (X : gset string) : length (set_iter X) = size X.
Proof. rewrite (set_iter_perm X). reflexivity. Qed.

(** With total searches, that is exclude patterns that are regular
    expressions, the comparison returns: the loops look up names of the
    tables only. *)
Lemma diff_ok (old_funcs new_funcs : gmap string (float * float)) :
  exists c, diff re_search set_iter a old_funcs new_funcs = Ok c.
Proof.
  unfold diff.
  destruct (exclude_loop re_search a _ _ ∅) as [common excl] eqn:Hx.
  pose proof (exclude_loop_spec _ _ _ _ _ Hx) as Hspec.
  destruct (compare_loop_ok a old_funcs new_funcs (set_iter common) no_buckets) as [b ->].
  { apply Forall_forall. intros n Hn%elem_of_set_iter.
    apply Hspec in Hn as [Hn _]. by apply elem_of_intersection in Hn. }
  cbn.
  destruct (only_loop_ok new_funcs (set_iter (dom new_funcs ∖ dom old_funcs ∖ excl)) [])
    as [nof ->].
  { apply Forall_forall. intros n Hn%elem_of_set_iter.
    by apply elem_of_difference in Hn as [[Hn _]%elem_of_difference _]. }
  cbn.
  destruct (only_loop_ok old_funcs (set_iter (dom old_funcs ∖ dom new_funcs ∖ excl)) [])
    as [oof ->].
  { apply Forall_forall. intros n Hn%elem_of_set_iter.
    by apply elem_of_difference in Hn as [[Hn _]%elem_of_difference _]. }
  cbn. eauto.
Qed.

Lemma diff_common_names (old_funcs new_funcs : gmap string (float * float)) (c : comparison) :
  diff re_search set_iter a old_funcs new_funcs = Ok c ->
  forall n,
    (n ∈ common_names c
     <-> n ∈ dom old_funcs /\ n ∈ dom new_funcs
         /\ should_exclude re_search n (exclude a) = false)
    /\ (n ∈ excluded c
        <-> n ∈ dom old_funcs /\ n ∈ dom new_funcs /\ should_exclude re_search n (exclude a) = true).
Proof.
  intros (b & nof & oof & Hx & _)%diff_inv n.
  destruct (exclude_loop_spec _ _ _ _ _ Hx n) as [Hc He].
  rewrite Hc, He, elem_of_set_iter, elem_of_intersection, elem_of_empty.
  destruct (should_exclude re_search n (exclude a)); intuition congruence.
Qed.

Lemma diff_entries (old_funcs new_funcs : gmap string (float * float)) (c : comparison) :
  diff re_search set_iter a old_funcs new_funcs = Ok c ->
  forall e,
    (e ∈ regressions c
     <-> built old_funcs new_funcs (set_iter (common_names c)) e
         /\ regression_condition a e)
    /\ (e ∈ improvements c
        <-> built old_funcs new_funcs (set_iter (common_names c)) e
            /\ ~ regression_condition a e /\ improvement_condition a e)
    /\ (e ∈ stable c
        <-> built old_funcs new_funcs (set_iter (common_names c)) e
            /\ ~ regression_condition a e /\ ~ improvement_condition a e).
Proof.
  intros (b & nof & oof & _ & Hb & -> & -> & -> & _)%diff_inv e.
  destruct (compare_loop_spec _ _ _ _ _ _ Hb e) as (Hr & Hi & Hs).
  unfold sort_by_key. rewrite !stable_sort_elem_of, Hr, Hi, Hs. cbn.
  rewrite !elem_of_nil. intuition.
Qed.

End EngineFacts.

(** ** Floats: a difference of finite floats is not a NaN *)

Lemma iter_pos_invariant {A : Type} (f : A -> A) (Inv : A -> Prop) :
  (forall x, Inv x -> Inv (f x)) ->
  forall (p : positive) (x : A), Inv x -> Inv (SpecFloat.iter_pos f p x).
Proof.
  intros Hf. induction p as [p IH|p IH|]; intros x Hx; simpl; auto.
Qed.

Lemma shr_1_nonneg (mrs : shr_record) : 0 <= shr_m mrs -> 0 <= shr_m (shr_1 mrs).
Proof.
  destruct mrs as [m r s]. simpl.
  destruct m as [|[p|p|]|[p|p|]]; simpl; lia.
Qed.

Lemma shr_fexp_nonneg (m e : Z) (l : location) :
  0 <= m -> 0 <= shr_m (fst (shr_fexp F64.prec F64.emax m e l)).
Proof.
  intros Hm. unfold shr_fexp, shr.
  assert (H0 : 0 <= shr_m (shr_record_of_loc m l)) by (destruct l as [|[]]; exact Hm).
  destruct (fexp F64.prec F64.emax (Zdigits2 m + e) - e) as [|p|p]; simpl; try exact H0.
  apply (iter_pos_invariant shr_1 (fun mrs => 0 <= shr_m mrs)); [apply shr_1_nonneg | exact H0].
Qed.

Lemma round_nearest_even_nonneg (m : Z) (l : location) :
  0 <= m -> 0 <= round_nearest_even m l.
Proof.
  intros Hm. unfold round_nearest_even.
  destruct l as [|[]]; try destruct (Z.even m); lia.
Qed.

Lemma binary_round_aux_not_nan (sx : bool) (mx ex : Z) (lx : location) :
  0 <= mx -> F64.is_nan (binary_round_aux F64.prec F64.emax sx mx ex lx) = false.
Proof.
  intros Hm. unfold binary_round_aux.
  pose proof (shr_fexp_nonneg mx ex lx Hm) as H1.
  destruct (shr_fexp F64.prec F64.emax mx ex lx) as [mrs' e']. simpl in H1.
  pose proof (shr_fexp_nonneg _ e' loc_Exact
                (round_nearest_even_nonneg _ (loc_of_shr_record mrs') H1)) as H2.
  destruct (shr_fexp F64.prec F64.emax _ e' loc_Exact) as [mrs'' e'']. simpl in H2.
  destruct (shr_m mrs'') as [|p|p]; [reflexivity | | lia].
  destruct (Z.leb e'' (F64.emax - F64.prec)); reflexivity.
Qed.

Lemma binary_normalize_not_nan (m e : Z) (s : bool) :
  F64.is_nan (binary_normalize F64.prec F64.emax m e s) = false.
Proof.
  unfold binary_normalize, binary_round.
  destruct m as [|p|p]; [reflexivity | |];
    destruct (shl_align _ _ _) as [mz ez]; by apply binary_round_aux_not_nan.
Qed.

Lemma sub_finite_not_nan (x y : float) :
  is_finite x = true -> is_finite y = true -> F64.is_nan (F64.sub x y) = false.
Proof.
  unfold F64.sub, SFsub.
  destruct x as [sx|sx| |sx mx ex], y as [sy|sy| |sy my ey]; simpl; try done.
  - intros _ _. destruct sx, sy; reflexivity.
  - intros _ _. apply binary_normalize_not_nan.
Qed.

(** ** Self comparison *)

Lemma mul_zero_100 (s : bool) : F64.mul (S754_zero s) (F64.of_Z 100) = S754_zero s.
Proof. destruct s; reflexivity. Qed.

(** The percent change of a cost against itself is zero, or NaN for an
    infinite cost. *)
Lemma pct_change_self (x : float) :
  exists p, pct_change x x (F64.sub x x) = Ok p /\ (is_zero p \/ p = S754_nan).
Proof.
  unfold pct_change. destruct (F64.gtb x F64.zero) eqn:Hpos.
  - unfold F64.div. rewrite (positive_not_zero _ Hpos). cbn.
    eexists; split; [reflexivity|].
    destruct (sub_self x) as [-> | ->].
    + left. revert Hpos. f64. unfold SFltb.
      float_cases x; simpl; try done; intros _; rewrite mul_zero_100; reflexivity.
    + right. destruct x; reflexivity.
  - eexists; split; [reflexivity|]. left. reflexivity.
Qed.

Lemma self_entry_neither (a : args) (funcs : gmap string (float * float))
    (name : string) (e : entry) :
  ~ (F64.ltb (threshold a) F64.zero = true /\ F64.ltb (min_delta a) F64.zero = true) ->
  make_entry funcs funcs name = Ok e ->
  ~ regression_condition a e /\ ~ improvement_condition a e.
Proof.
  intros Hcfg He.
  destruct (make_entry_inv _ _ _ _ He)
    as (f & c & f' & c' & Ho & Hn & _ & _ & _ & _ & _ & _ & Efd & Ecd & Hfp & Hcp).
  rewrite Ho in Hn. injection Hn as <- <-.
  unfold regression_condition, improvement_condition, metric_regressed, metric_improved.
  rewrite Efd, Ecd.
  destruct (F64.ltb (min_delta a) F64.zero) eqn:Hfloor.
  - assert (Ht : not_negative (threshold a)).
    { unfold not_negative. destruct (F64.ltb (threshold a) F64.zero); [|reflexivity].
      exfalso. by apply Hcfg. }
    destruct (pct_change_self f) as (fp & Hfp' & Zfp).
    destruct (pct_change_self c) as (cp & Hcp' & Zcp).
    rewrite Hfp in Hfp'. rewrite Hcp in Hcp'.
    injection Hfp' as ->. injection Hcp' as ->.
    assert (forall p, is_zero p \/ p = S754_nan ->
              F64.gtb p (threshold a) = false /\ F64.ltb p (F64.neg (threshold a)) = false)
      as Hp.
    { intros p [Zp | ->].
      - split; [by apply zero_not_above | by apply zero_not_below_opposite].
      - split; [apply SFltb_nan_r | reflexivity]. }
    destruct (Hp _ Zfp) as [-> ->]. destruct (Hp _ Zcp) as [-> ->].
    split; intros [[? _]|[? _]]; discriminate.
  - assert (forall x, F64.gtb (F64.abs (F64.sub x x)) (min_delta a) = false) as Hd.
    { intros x. destruct (sub_self x) as [-> | ->].
      - by apply abs_zero_not_above.
      - apply SFltb_nan_r. }
    rewrite !Hd. split; intros [[_ ?]|[_ ?]]; discriminate.
Qed.

(** ** The claims on the engine *)

Lemma listed_built (old_funcs new_funcs : gmap string (float * float))
    (names : list string) (name : string) (e : entry) (l : list entry) (Q : entry -> Prop) :
  (forall e', e' ∈ l <-> built old_funcs new_funcs names e' /\ Q e') ->
  name ∈ names -> make_entry old_funcs new_funcs name = Ok e ->
  listed name l <-> Q e.
Proof.
  intros Hl Hn He. unfold listed. split.
  - intros (e' & [[_ Hb] HQ]%Hl & Hname). rewrite Hname in Hb. congruence.
  - intros HQ. exists e.
    destruct (make_entry_inv _ _ _ _ He) as (?&?&?&?&_&_&Hname&_).
    split; [|exact Hname]. apply Hl. unfold built. rewrite Hname. auto.
Qed.

Section EngineClaims.
Variable re_search : string -> string -> bool.
Variable set_iter : gset string -> list string.
Hypothesis set_iter_perm : forall X : gset string, set_iter X ≡ₚ elements X.
Variable a : args.
Variables old_funcs new_funcs : gmap string (float * float).

(** C2. Every function of both tables that no pattern excludes is put in
    exactly one of the three lists: in the regressions when the regression
    condition holds (cumulative percent change above the threshold and
    cumulative delta above the floor in absolute value, or the same for the
    flat metric), otherwise in the improvements when the condition with
    the percent changes below the opposite of the threshold holds,
    otherwise in the stable list. *)
Theorem classification_follows_policy (name : string) :
  name ∈ dom old_funcs -> name ∈ dom new_funcs ->
  should_exclude re_search name (exclude a) = false ->
  exists c e,
    diff re_search set_iter a old_funcs new_funcs = Ok c
    /\ make_entry old_funcs new_funcs name = Ok e
    /\ (listed name (regressions c) <-> regression_condition a e)
    /\ (listed name (improvements c)
        <-> ~ regression_condition a e /\ improvement_condition a e)
    /\ (listed name (stable c)
        <-> ~ regression_condition a e /\ ~ improvement_condition a e)
    /\ ((listed name (regressions c)
         /\ ~ listed name (improvements c) /\ ~ listed name (stable c))
        \/ (~ listed name (regressions c)
            /\ listed name (improvements c) /\ ~ listed name (stable c))
        \/ (~ listed name (regressions c)
            /\ ~ listed name (improvements c) /\ listed name (stable c)))
    /\ (length (regressions c) + length (improvements c) + length (stable c)
        = size (common_names c))%nat.
Proof.
  intros Ho Hn Hx.
  destruct (diff_ok re_search set_iter a set_iter_perm old_funcs new_funcs) as [c Hc].
  destruct (make_entry_ok _ _ _ Ho Hn) as [e He].
  exists c, e. split; [exact Hc|]. split; [exact He|].
  assert (Hin : name ∈ set_iter (common_names c)).
  { apply (elem_of_set_iter set_iter set_iter_perm).
    by apply (diff_common_names _ _ _ set_iter_perm _ _ _ Hc). }
  pose proof (diff_entries _ _ _ _ _ _ Hc) as Hent.
  assert (Hr : listed name (regressions c) <-> regression_condition a e).
  { eapply (listed_built _ _ _ _ _ _ (regression_condition a)); [|exact Hin|exact He].
    intros e'. apply Hent. }
  assert (Hi : listed name (improvements c)
               <-> ~ regression_condition a e /\ improvement_condition a e).
  { eapply (listed_built _ _ _ _ _ _
              (fun e => ~ regression_condition a e /\ improvement_condition a e));
      [|exact Hin|exact He].
    intros e'. apply Hent. }
  assert (Hs : listed name (stable c)
               <-> ~ regression_condition a e /\ ~ improvement_condition a e).
  { eapply (listed_built _ _ _ _ _ _
              (fun e => ~ regression_condition a e /\ ~ improvement_condition a e));
      [|exact Hin|exact He].
    intros e'. apply Hent. }
  split; [exact Hr|]. split; [exact Hi|]. split; [exact Hs|]. split.
  - rewrite Hr, Hi, Hs, <- is_regression_spec, <- is_improvement_spec.
    destruct (is_regression a _ _ _ _), (is_improvement a _ _ _ _); intuition congruence.
  - destruct (diff_inv _ _ _ _ _ _ Hc) as (b & nof & oof & _ & Hb & -> & -> & -> & _).
    rewrite !(Permutation_length (sort_by_key_perm _ _ _)).
    rewrite (compare_loop_length _ _ _ _ _ _ Hb). cbn.
    rewrite (length_set_iter set_iter set_iter_perm). lia.
Qed.

(** C4 (amended). Unless the threshold and the floor are both negative,
    comparing a cost table with itself gives no regression and no
    improvement, lists every compared function as stable, and gives no new
    and no removed function. *)
Theorem self_comparison_is_stable (funcs : gmap string (float * float)) :
  ~ (F64.ltb (threshold a) F64.zero = true /\ F64.ltb (min_delta a) F64.zero = true) ->
  exists c,
    diff re_search set_iter a funcs funcs = Ok c
    /\ regressions c = [] /\ improvements c = []
    /\ (forall name, name ∈ common_names c -> listed name (stable c))
    /\ length (stable c) = size (common_names c)
    /\ new_only_filtered c = [] /\ old_only_filtered c = [].
Proof.
  intros Hcfg.
  destruct (diff_ok re_search set_iter a set_iter_perm funcs funcs) as [c Hc].
  exists c. split; [exact Hc|].
  pose proof (diff_entries _ _ _ _ _ _ Hc) as Hent.
  assert (Hregs : regressions c = []).
  { apply elem_of_nil_inv. intros e [[_ He] Hr]%Hent.
    by apply (proj1 (self_entry_neither a funcs _ e Hcfg He)). }
  assert (Himps : improvements c = []).
  { apply elem_of_nil_inv. intros e ([_ He] & _ & Hi)%Hent.
    by apply (proj2 (self_entry_neither a funcs _ e Hcfg He)). }
  split; [exact Hregs|]. split; [exact Himps|].
  destruct (diff_inv _ _ _ _ _ _ Hc)
    as (b & nof & oof & _ & Hb & Er & Ei & Es & Hnof & En & Hoof & Eo).
  split; [|split; [|split]].
  - intros name Hname.
    pose proof (proj1 (proj1 (diff_common_names _ _ _ set_iter_perm _ _ _ Hc name)) Hname)
      as (Hd & _ & _).
    destruct (make_entry_ok _ _ _ Hd Hd) as [e He].
    eapply (listed_built _ _ _ _ _ _
              (fun e => ~ regression_condition a e /\ ~ improvement_condition a e)).
    + intros e'. apply Hent.
    + by apply (elem_of_set_iter set_iter set_iter_perm).
    + exact He.
    + by apply (self_entry_neither a funcs name e Hcfg He).
  - pose proof (compare_loop_length _ _ _ _ _ _ Hb) as Hlen. cbn in Hlen.
    rewrite (length_set_iter set_iter set_iter_perm) in Hlen.
    assert (Lr : length (b_regressions b) = 0%nat).
    { rewrite <- (Permutation_length (sort_by_key_perm e_cum_delta true _)), <- Er, Hregs.
      reflexivity. }
    assert (Li : length (b_improvements b) = 0%nat).
    { rewrite <- (Permutation_length (sort_by_key_perm e_cum_delta false _)), <- Ei, Himps.
      reflexivity. }
    rewrite Es. lia.
  - rewrite En. apply stable_sort_nil_inv, elem_of_nil_inv. intros [[n f] cum] Hin.
    apply (only_loop_spec _ _ _ _ _ _ Hnof) in Hin as [Hin|(Hin & _)];
      [by apply elem_of_nil in Hin|].
    apply (elem_of_set_iter set_iter set_iter_perm) in Hin.
    apply elem_of_difference in Hin as [[Hin Hnot]%elem_of_difference _]. by apply Hnot.
  - rewrite Eo. apply stable_sort_nil_inv, elem_of_nil_inv. intros [[n f] cum] Hin.
    apply (only_loop_spec _ _ _ _ _ _ Hoof) in Hin as [Hin|(Hin & _)];
      [by apply elem_of_nil in Hin|].
    apply (elem_of_set_iter set_iter set_iter_perm) in Hin.
    apply elem_of_difference in Hin as [[Hin Hnot]%elem_of_difference _]. by apply Hnot.
Qed.


(** C6. A function of both tables that an exclude pattern matches has no
    entry among the regressions, the improvements or the stable functions,
    is not one of the common functions that are counted, and is one of the
    excluded functions that are counted; the two counts add up to the
    number of functions of both tables. *)
Theorem excluded_function_not_compared (name : string) :
  name ∈ dom old_funcs -> name ∈ dom new_funcs ->
  should_exclude re_search name (exclude a) = true ->
  exists c,
    diff re_search set_iter a old_funcs new_funcs = Ok c
    /\ ~ listed name (regressions c)
    /\ ~ listed name (improvements c)
    /\ ~ listed name (stable c)
    /\ (name ∉ common_names c)
    /\ name ∈ excluded c
    /\ (size (common_names c) + size (excluded c)
        = size (dom old_funcs ∩ dom new_funcs))%nat.
Proof.
  intros Ho Hn Hx.
  destruct (diff_ok re_search set_iter a set_iter_perm old_funcs new_funcs) as [c Hc].
  exists c. split; [exact Hc|].
  pose proof (diff_common_names _ _ _ set_iter_perm _ _ _ Hc) as Hnames.
  pose proof (diff_entries _ _ _ _ _ _ Hc) as Hent.
  assert (Hnot : name ∉ common_names c).
  { intros (_ & _ & Hx')%Hnames. congruence. }
  assert (Hno : forall e, built old_funcs new_funcs (set_iter (common_names c)) e ->
                  e_name e <> name).
  { intros e [Hin _] Heq. apply Hnot. rewrite <- Heq.
    by apply (elem_of_set_iter set_iter set_iter_perm). }
  split; [|split; [|split; [|split; [|split]]]].
  - intros (e & [Hb _]%Hent & Hname). by apply (Hno e).
  - intros (e & [Hb _]%Hent & Hname). by apply (Hno e).
  - intros (e & [Hb _]%Hent & Hname). by apply (Hno e).
  - exact Hnot.
  - by apply Hnames.
  - rewrite <- size_union.
    + f_equal. apply set_eq. intros n.
      rewrite elem_of_union, elem_of_intersection.
      destruct (Hnames n) as [-> ->].
      destruct (should_exclude re_search n (exclude a)); intuition congruence.
    + intros n (_ & _ & H1)%Hnames (_ & _ & H2)%Hnames. congruence.
Qed.

(** C7. A function of one table only that no pattern excludes is listed as
    new (as removed) exactly when its cumulative cost is above 200 ms, and
    both lists are in non-increasing order of cumulative cost. *)
Theorem new_and_removed_above_floor (c : comparison) :
  diff re_search set_iter a old_funcs new_funcs = Ok c ->
  (forall name flat cum,
     new_funcs !! name = Some (flat, cum) -> name ∉ dom old_funcs ->
     should_exclude re_search name (exclude a) = false ->
     (name, flat, cum) ∈ new_only_filtered c <-> F64.gtb cum (F64.of_Z 200) = true)
  /\ (forall name flat cum,
        old_funcs !! name = Some (flat, cum) -> name ∉ dom new_funcs ->
        should_exclude re_search name (exclude a) = false ->
        (name, flat, cum) ∈ old_only_filtered c <-> F64.gtb cum (F64.of_Z 200) = true)
  /\ StronglySorted (fun x y => F64.geb (snd x) (snd y) = true) (new_only_filtered c)
  /\ StronglySorted (fun x y => F64.geb (snd x) (snd y) = true) (old_only_filtered c).
Proof.
  intros Hc.
  pose proof (diff_common_names _ _ _ set_iter_perm _ _ _ Hc) as Hnames.
  destruct (diff_inv _ _ _ _ _ _ Hc)
    as (b & nof & oof & _ & _ & _ & _ & _ & Hnof & En & Hoof & Eo).
  pose proof (only_loop_spec _ _ _ _ _ _ Hnof) as Sn.
  pose proof (only_loop_spec _ _ _ _ _ _ Hoof) as So.
  assert (Hsorted : forall l : list (string * float * float),
            (forall n f cu, (n, f, cu) ∈ l -> F64.gtb cu (F64.of_Z 200) = true) ->
            StronglySorted (fun x y => F64.geb (snd x) (snd y) = true)
              (sort_by_key (fun x => snd x) true l)).
  { intros l Hl. apply (sort_by_key_descending (fun x : string * float * float => snd x)).
    apply Forall_forall. intros [[n f] cu] Hin. cbn.
    by destruct (SFltb_not_nan _ _ (Hl _ _ _ Hin)). }
  rewrite En, Eo. unfold sort_by_key at 1 3. setoid_rewrite stable_sort_elem_of.
  split; [|split; [|split]].
  - intros name flat cum Hl Hnot Hx. rewrite Sn, elem_of_nil.
    rewrite (elem_of_set_iter set_iter set_iter_perm), !elem_of_difference.
    split; [intros [[]|(_ & _ & _ & H)]; exact H|].
    intros Hcum. right. repeat split; try assumption.
    + apply elem_of_dom. eauto.
    + intros (Hd & _)%Hnames. by apply Hnot.
  - intros name flat cum Hl Hnot Hx. rewrite So, elem_of_nil.
    rewrite (elem_of_set_iter set_iter set_iter_perm), !elem_of_difference.
    split; [intros [[]|(_ & _ & _ & H)]; exact H|].
    intros Hcum. right. repeat split; try assumption.
    + apply elem_of_dom. eauto.
    + intros (_ & Hd & _)%Hnames. by apply Hnot.
  - apply Hsorted. intros n f cu Hin. apply Sn in Hin as [Hin|(_ & _ & _ & H)]; [|exact H].
    by apply elem_of_nil in Hin.
  - apply Hsorted. intros n f cu Hin. apply So in Hin as [Hin|(_ & _ & _ & H)]; [|exact H].
    by apply elem_of_nil in Hin.
Qed.

End EngineClaims.

(** ** Rendering of a change and the report header *)

Section FormatClaims.
Variables fmt_0f fmt_1f fmt_comma_0f : float -> string.

Lemma format_change_ok (old_val new_val : float) :
  exists s, format_change fmt_0f old_val new_val = Ok s.
Proof.
  unfold format_change, F64.div.
  destruct (F64.eqb old_val F64.zero); [destruct (F64.eqb new_val F64.zero)|]; cbn; eauto.
Qed.



Lemma write_durations_and_totals_ok (old_duration new_duration old_total new_total : option float) :
  exists out,
    write_durations_and_totals fmt_0f fmt_1f fmt_comma_0f
      old_duration new_duration old_total new_total = Ok out.
Proof.
  unfold write_durations_and_totals.
  destruct old_total as [ot|], new_total as [nt|]; eauto.
  destruct (F64.truthy ot) eqn:Hot; cbn; eauto.
  destruct (F64.truthy nt); cbn; eauto.
  unfold F64.div. unfold F64.truthy in Hot. apply negb_true_iff in Hot. rewrite Hot. cbn.
  destruct (format_change_ok ot nt) as [s ->]. cbn. eauto.
Qed.

(** C10. A duration or a total that is zero is written as an absent one:
    the duration line, or the block of the totals, is left out. *)
Theorem zero_header_value_as_absent (z : float)
    (old_duration new_duration old_total new_total : option float) :
  is_zero z ->
  write_durations_and_totals fmt_0f fmt_1f fmt_comma_0f
    (Some z) new_duration old_total new_total
  = write_durations_and_totals fmt_0f fmt_1f fmt_comma_0f
      None new_duration old_total new_total
  /\ write_durations_and_totals fmt_0f fmt_1f fmt_comma_0f
       old_duration (Some z) old_total new_total
     = write_durations_and_totals fmt_0f fmt_1f fmt_comma_0f
         old_duration None old_total new_total
  /\ write_durations_and_totals fmt_0f fmt_1f fmt_comma_0f
       old_duration new_duration (Some z) new_total
     = write_durations_and_totals fmt_0f fmt_1f fmt_comma_0f
         old_duration new_duration None new_total
  /\ write_durations_and_totals fmt_0f fmt_1f fmt_comma_0f
       old_duration new_duration old_total (Some z)
     = write_durations_and_totals fmt_0f fmt_1f fmt_comma_0f
         old_duration new_duration old_total None.
Proof.
  intros Hz. assert (Ht : F64.truthy z = false).
  { unfold F64.truthy. unfold is_zero in Hz. by rewrite Hz. }
  unfold write_durations_and_totals. rewrite !Ht.
  repeat split.
  - destruct new_total; reflexivity.
  - destruct old_total as [ot|]; [|reflexivity].
    rewrite andb_false_r. reflexivity.
Qed.

End FormatClaims.

(** ** The parser *)

Lemma py_float_raises (s : string) (x : exn) : py_float s = Raise x -> x = ValueError.
Proof.
  unfold py_float. destruct (scan_decimal s false 0 0%nat 0) as [[[n [|d]] k]|]; congruence.
Qed.

Lemma parse_lines_raises (lines : list string) (functions : gmap string (float * float))
    (x : exn) :
  parse_lines lines functions = Raise x -> x = ValueError.
Proof.
  revert functions. induction lines as [|line rest IH]; intros functions; cbn; [discriminate|].
  destruct (match_row line) as [[[[[g1 g2] g3] g4] g5]|]; [|apply IH].
  destruct (py_float g1) as [v1|x1] eqn:H1; cbn.
  2:{ intros [= <-]. by eapply py_float_raises. }
  destruct (py_float g3) as [v3|x3] eqn:H3; cbn.
  2:{ intros [= <-]. by eapply py_float_raises. }
  apply IH.
Qed.

Lemma parse_lines_bad_row (lines : list string) (functions : gmap string (float * float))
    (line g1 g2 g3 g4 g5 : string) :
  line ∈ lines -> match_row line = Some (g1, g2, g3, g4, g5) ->
  py_float g1 = Raise ValueError \/ py_float g3 = Raise ValueError ->
  parse_lines lines functions = Raise ValueError.
Proof.
  intros Hin Hrow Hbad. revert functions.
  induction lines as [|l rest IH]; intros functions; [by apply elem_of_nil in Hin|].
  apply elem_of_cons in Hin as [<-|Hin]; cbn.
  - rewrite Hrow. destruct (py_float g1) as [v1|x1] eqn:H1; cbn.
    + destruct Hbad as [Hbad|Hbad]; [discriminate|]. rewrite Hbad. reflexivity.
    + f_equal. by eapply py_float_raises.
  - destruct (match_row l) as [[[[[h1 h2] h3] h4] h5]|]; [|by apply IH].
    destruct (py_float h1) as [v1|x1] eqn:H1; cbn.
    2:{ f_equal. by eapply py_float_raises. }
    destruct (py_float h3) as [v3|x3] eqn:H3; cbn.
    2:{ f_equal. by eapply py_float_raises. }
    by apply IH.
Qed.

Lemma parse_pprof_output_raises (output : string) (x : exn) :
  parse_pprof_output output = Raise x -> x = ValueError.
Proof.
  unfold parse_pprof_output.
  destruct (re_search_with match_total_at output) as [[tok unit]|].
  - destruct (py_float tok) as [v|x'] eqn:Hv; cbn.
    2:{ intros [= <-]. by eapply py_float_raises. }
    destruct (re_search_with match_duration_at output) as [tok'|].
    + destruct (py_float tok') as [d|x'] eqn:Hd; cbn.
      2:{ intros [= <-]. by eapply py_float_raises. }
      destruct (parse_lines (split_nl output) ∅) as [fs|x'] eqn:Hl; cbn; [discriminate|].
      intros [= <-]. by eapply parse_lines_raises.
    + cbn. destruct (parse_lines (split_nl output) ∅) as [fs|x'] eqn:Hl; cbn; [discriminate|].
      intros [= <-]. by eapply parse_lines_raises.
  - cbn. destruct (re_search_with match_duration_at output) as [tok'|].
    + destruct (py_float tok') as [d|x'] eqn:Hd; cbn.
      2:{ intros [= <-]. by eapply py_float_raises. }
      destruct (parse_lines (split_nl output) ∅) as [fs|x'] eqn:Hl; cbn; [discriminate|].
      intros [= <-]. by eapply parse_lines_raises.
    + cbn. destruct (parse_lines (split_nl output) ∅) as [fs|x'] eqn:Hl; cbn; [discriminate|].
      intros [= <-]. by eapply parse_lines_raises.
Qed.

Lemma parse_pprof_output_bad_row (output line g1 g2 g3 g4 g5 : string) :
  line ∈ split_nl output -> match_row line = Some (g1, g2, g3, g4, g5) ->
  py_float g1 = Raise ValueError \/ py_float g3 = Raise ValueError ->
  parse_pprof_output output = Raise ValueError.
Proof.
  intros Hin Hrow Hbad.
  destruct (parse_pprof_output output) as [r|x] eqn:Hp.
  2:{ f_equal. by eapply parse_pprof_output_raises. }
  exfalso. revert Hp. unfold parse_pprof_output.
  rewrite (parse_lines_bad_row _ ∅ _ _ _ _ _ _ Hin Hrow Hbad).
  destruct (re_search_with match_total_at output) as [[tok unit]|];
    [destruct (py_float tok); cbn; [|discriminate]|cbn];
    (destruct (re_search_with match_duration_at output) as [tok'|];
     [destruct (py_float tok'); cbn; discriminate | cbn; discriminate]).
Qed.

(** A token of digits and dots is rejected exactly when it has no digit or
    a second dot; [1.2.3] is rejected. *)
Example py_float_two_dots : py_float "1.2.3" = Raise ValueError.
Proof. reflexivity. Qed.

Example py_float_tenth :
  py_float "0.1" = Ok (S754_finite false 7205759403792794 (-56)).
Proof. vm_compute. reflexivity. Qed.

(** C8 (amended). When a line of the extractor output has the shape of a
    data row and its flat or cumulative time does not parse as a float,
    the parser raises [ValueError], and so does [main], whichever of the
    two outputs holds the line: no comparison and no report come out. *)
Theorem malformed_number_aborts (output line g1 g2 g3 g4 g5 : string) :
  line ∈ split_nl output -> match_row line = Some (g1, g2, g3, g4, g5) ->
  py_float g1 = Raise ValueError \/ py_float g3 = Raise ValueError ->
  parse_pprof_output output = Raise ValueError
  /\ forall re_search set_iter fmt_0f fmt_1f fmt_comma_0f a other,
       main re_search set_iter fmt_0f fmt_1f fmt_comma_0f a output other = Raise ValueError
       /\ main re_search set_iter fmt_0f fmt_1f fmt_comma_0f a other output = Raise ValueError.
Proof.
  intros Hin Hrow Hbad.
  pose proof (parse_pprof_output_bad_row _ _ _ _ _ _ _ Hin Hrow Hbad) as Hp.
  split; [exact Hp|].
  intros re_search set_iter fmt_0f fmt_1f fmt_comma_0f a other. unfold main. split.
  - rewrite Hp. reflexivity.
  - destruct (parse_pprof_output other) as [[[fs t] d]|x] eqn:Ho; cbn.
    + rewrite Hp. reflexivity.
    + f_equal. by eapply parse_pprof_output_raises.
Qed.

Lemma malformed_number_aborts_witness :
  parse_pprof_output "1.2.3ms 5% 5% 10ms 6% runtime.cgocall" = Raise ValueError
  /\ forall re_search set_iter fmt_0f fmt_1f fmt_comma_0f a other,
       main re_search set_iter fmt_0f fmt_1f fmt_comma_0f a
         "1.2.3ms 5% 5% 10ms 6% runtime.cgocall" other = Raise ValueError
       /\ main re_search set_iter fmt_0f fmt_1f fmt_comma_0f a
            other "1.2.3ms 5% 5% 10ms 6% runtime.cgocall" = Raise ValueError.
Proof.
  apply (malformed_number_aborts "1.2.3ms 5% 5% 10ms 6% runtime.cgocall"
           "1.2.3ms 5% 5% 10ms 6% runtime.cgocall" "1.2.3" "ms" "10" "ms" "runtime.cgocall").
  - vm_compute. constructor.
  - vm_compute. reflexivity.
  - left. vm_compute. reflexivity.
Defined.

(** Once both outputs parse, [main] returns.  This is [main] for exclude
    patterns that are regular expressions. *)
Lemma main_ok (re_search : string -> string -> bool) (set_iter : gset string -> list string)
    (fmt_0f fmt_1f fmt_comma_0f : float -> string) (a : args)
    (old_output new_output : string) :
  (forall X : gset string, set_iter X ≡ₚ elements X) ->
  is_ok (parse_pprof_output old_output) = true ->
  is_ok (parse_pprof_output new_output) = true ->
  is_ok (main re_search set_iter fmt_0f fmt_1f fmt_comma_0f a old_output new_output) = true.
Proof.
  intros Hiter Ho Hn. unfold main.
  destruct (parse_pprof_output old_output) as [[[fo to] do]|]; [|discriminate].
  destruct (parse_pprof_output new_output) as [[[fn tn] dn]|]; [|discriminate].
  cbn. destruct (diff_ok re_search set_iter a Hiter fo fn) as [c ->]. cbn.
  destruct (write_durations_and_totals_ok fmt_0f fmt_1f fmt_comma_0f do dn to tn) as [h ->].
  reflexivity.
Qed.

(** ** The claims on concrete tables *)

Lemma classification_follows_policy_witness :
  let old_funcs : gmap string (float * float) := {[ "f" := (F64.of_Z 100, F64.of_Z 100) ]} in
  let new_funcs : gmap string (float * float) := {[ "f" := (F64.of_Z 200, F64.of_Z 200) ]} in
  exists c e,
    diff literal_search elements default_args old_funcs new_funcs = Ok c
    /\ make_entry old_funcs new_funcs "f" = Ok e
    /\ (listed "f" (regressions c) <-> regression_condition default_args e)
    /\ (listed "f" (improvements c)
        <-> ~ regression_condition default_args e /\ improvement_condition default_args e)
    /\ (listed "f" (stable c)
        <-> ~ regression_condition default_args e /\ ~ improvement_condition default_args e)
    /\ ((listed "f" (regressions c)
         /\ ~ listed "f" (improvements c) /\ ~ listed "f" (stable c))
        \/ (~ listed "f" (regressions c)
            /\ listed "f" (improvements c) /\ ~ listed "f" (stable c))
        \/ (~ listed "f" (regressions c)
            /\ ~ listed "f" (improvements c) /\ listed "f" (stable c)))
    /\ (length (regressions c) + length (improvements c) + length (stable c)
        = size (common_names c))%nat.
Proof.
  intros old_funcs new_funcs.
  apply (classification_follows_policy literal_search elements (fun X => reflexivity _)
           default_args old_funcs new_funcs "f").
  - vm_compute. reflexivity.
  - vm_compute. reflexivity.
  - reflexivity.
Defined.


Lemma self_comparison_is_stable_witness :
  let funcs : gmap string (float * float) := {[ "f" := (F64.of_Z 100, F64.of_Z 200) ]} in
  exists c,
    diff literal_search elements default_args funcs funcs = Ok c
    /\ regressions c = [] /\ improvements c = []
    /\ (forall name, name ∈ common_names c -> listed name (stable c))
    /\ length (stable c) = size (common_names c)
    /\ new_only_filtered c = [] /\ old_only_filtered c = [].
Proof.
  intros funcs.
  apply (self_comparison_is_stable literal_search elements (fun X => reflexivity _)
           default_args funcs).
  intros [H _]. vm_compute in H. discriminate H.
Defined.

(** C4, as stated, fails: with a threshold of -1 and a floor of -1, a
    table compared with itself reports its function as a regression. *)
Lemma self_comparison_regression_negative_config :
  let a := {| threshold := F64.of_Z (-1); min_delta := F64.of_Z (-1); exclude := [] |} in
  let funcs : gmap string (float * float) := {[ "f" := (F64.of_Z 100, F64.of_Z 100) ]} in
  exists c,
    diff literal_search elements a funcs funcs = Ok c
    /\ e_name <$> regressions c = ["f"] /\ stable c = [].
Proof.
  intros a funcs. eexists. split; [vm_compute; reflexivity|].
  split; vm_compute; reflexivity.
Qed.




(** C8, as stated, fails for the percentages of a row: the row pattern
    matches them and nothing converts them, so a row with the percentage
    [1.2.3%] is read like any other and the comparison is made. *)
Lemma malformed_percentage_is_read :
  parse_pprof_output "10ms 1.2.3% 5% 10ms 6% f"
  = Ok ({[ "f" := (F64.of_Z 10, F64.of_Z 10) ]}, None, None)
  /\ is_ok (main literal_search elements (fun _ => "0") (fun _ => "0") (fun _ => "0")
              default_args "10ms 1.2.3% 5% 10ms 6% f" "10ms 1.2.3% 5% 10ms 6% f") = true.
Proof.
  split; [vm_compute; reflexivity|].
  apply main_ok; [exact (fun X => reflexivity _)| |]; vm_compute; reflexivity.
Qed.


Lemma excluded_function_not_compared_witness :
  let a := {| threshold := F64.of_Z 30; min_delta := F64.of_Z 50; exclude := ["Path"] |} in
  let old_funcs : gmap string (float * float) :=
    {[ "vector.drawPath" := (F64.of_Z 100, F64.of_Z 100) ]} in
  let new_funcs : gmap string (float * float) :=
    {[ "vector.drawPath" := (F64.of_Z 900, F64.of_Z 900) ]} in
  exists c,
    diff literal_search elements a old_funcs new_funcs = Ok c
    /\ ~ listed "vector.drawPath" (regressions c)
    /\ ~ listed "vector.drawPath" (improvements c)
    /\ ~ listed "vector.drawPath" (stable c)
    /\ ("vector.drawPath" ∉ common_names c)
    /\ "vector.drawPath" ∈ excluded c
    /\ (size (common_names c) + size (excluded c)
        = size (dom old_funcs ∩ dom new_funcs))%nat.
Proof.
  intros a old_funcs new_funcs.
  apply (excluded_function_not_compared literal_search elements (fun X => reflexivity _)
           a old_funcs new_funcs "vector.drawPath").
  - vm_compute. reflexivity.
  - vm_compute. reflexivity.
  - reflexivity.
Defined.

(** A function of the new table only is left out at 150 ms and listed at
    250 ms. *)
Lemma new_and_removed_above_floor_witness :
  let old_funcs : gmap string (float * float) := ∅ in
  let new_funcs : gmap string (float * float) :=
    <[ "f" := (F64.of_Z 10, F64.of_Z 150) ]> {[ "g" := (F64.of_Z 10, F64.of_Z 250) ]} in
  exists c,
    diff literal_search elements default_args old_funcs new_funcs = Ok c
    /\ (("f", F64.of_Z 10, F64.of_Z 150) ∉ new_only_filtered c)
    /\ ("g", F64.of_Z 10, F64.of_Z 250) ∈ new_only_filtered c
    /\ StronglySorted (fun x y => F64.geb (snd x) (snd y) = true) (new_only_filtered c).
Proof.
  intros old_funcs new_funcs.
  destruct (diff literal_search elements default_args old_funcs new_funcs) as [c|] eqn:Hc;
    [|vm_compute in Hc; discriminate Hc].
  exists c. split; [reflexivity|].
  destruct (new_and_removed_above_floor literal_search elements (fun X => reflexivity _)
              default_args old_funcs new_funcs c Hc) as (Hnew & _ & Hsorted & _).
  split; [|split; [|exact Hsorted]].
  - intros Hin. apply Hnew in Hin; [vm_compute in Hin; discriminate Hin | | |].
    + vm_compute. reflexivity.
    + intros Hd. unfold old_funcs in Hd. rewrite dom_empty_L in Hd.
      by apply elem_of_empty in Hd.
    + reflexivity.
  - apply Hnew; [| | |vm_compute; reflexivity].
    + vm_compute. reflexivity.
    + intros Hd. unfold old_funcs in Hd. rewrite dom_empty_L in Hd.
      by apply elem_of_empty in Hd.
    + reflexivity.
Defined.

Lemma zero_header_value_as_absent_witness :
  let fmt : float -> string := fun _ => "0" in
  write_durations_and_totals fmt fmt fmt (Some F64.zero) None
    (Some (F64.of_Z 0)) (Some (F64.of_Z 5000))
  = write_durations_and_totals fmt fmt fmt None None None (Some (F64.of_Z 5000))
  /\ write_durations_and_totals fmt fmt fmt None None None (Some (F64.of_Z 5000)) = Ok [].
Proof.
  intros fmt. split; [|reflexivity].
  destruct (zero_header_value_as_absent fmt fmt fmt F64.zero
              None None (Some (F64.of_Z 0)) (Some (F64.of_Z 5000))) as (H1 & _ & _ & _).
  - reflexivity.
  - rewrite H1.
    destruct (zero_header_value_as_absent fmt fmt fmt (F64.of_Z 0)
                None None None (Some (F64.of_Z 5000))) as (_ & _ & H3 & _).
    + reflexivity.
    + exact H3.
Defined.

(** ** The examples of the specification *)

(** 100 ms to 200 ms is a regression, 200 ms to 100 ms an improvement, and
    10 ms to 13 ms, a change of 30 percent but of 3 ms only, is stable. *)
Example regression_improvement_symmetry :
  let old_funcs : gmap string (float * float) :=
    <[ "A" := (F64.of_Z 100, F64.of_Z 100) ]>
      (<[ "B" := (F64.of_Z 200, F64.of_Z 200) ]> {[ "C" := (F64.of_Z 10, F64.of_Z 10) ]}) in
  let new_funcs : gmap string (float * float) :=
    <[ "A" := (F64.of_Z 200, F64.of_Z 200) ]>
      (<[ "B" := (F64.of_Z 100, F64.of_Z 100) ]> {[ "C" := (F64.of_Z 13, F64.of_Z 13) ]}) in
  exists c,
    diff literal_search elements default_args old_funcs new_funcs = Ok c
    /\ e_name <$> regressions c = ["A"]
    /\ e_name <$> improvements c = ["B"]
    /\ e_name <$> stable c = ["C"].
Proof.
  intros old_funcs new_funcs. eexists. split; [vm_compute; reflexivity|].
  repeat split; vm_compute; reflexivity.
Qed.

(** A header line [Duration: 0s] parses to a duration of zero, which the
    report leaves out. *)
Example parse_zero_duration :
  parse_pprof_output "Duration: 0s, Total samples = 0" = Ok (∅, None, Some F64.zero).
Proof. vm_compute. reflexivity. Qed.

(** * Further properties *)

(** ** The parser: which rows enter the table *)

Lemma parse_lines_cons (line : string) (rest : list string)
    (functions : gmap string (float * float)) :
  parse_lines (line :: rest) functions
  = match row_costs line with
    | None => parse_lines rest functions
    | Some (Raise x) => Raise x
    | Some (Ok (name, costs)) => parse_lines rest (<[name := costs]> functions)
    end.
Proof.
  unfold row_costs. cbn [parse_lines].
  destruct (match_row line) as [[[[[g1 g2] g3] g4] g5]|]; [|reflexivity].
  destruct (py_float g1) as [v1|x1]; cbn; [|reflexivity].
  destruct (py_float g3) as [v3|x3]; cbn; reflexivity.
Qed.

Lemma parse_pprof_output_inv (output : string) (functions : gmap string (float * float))
    (total duration : option float) :
  parse_pprof_output output = Ok (functions, total, duration) ->
  parse_lines (split_nl output) ∅ = Ok functions
  /\ match re_search_with match_total_at output with
     | Some (tok, unit) => exists val, py_float tok = Ok val /\ total = Some (to_ms val unit)
     | None => total = None
     end
  /\ match re_search_with match_duration_at output with
     | Some tok => exists d, py_float tok = Ok d /\ duration = Some d
     | None => duration = None
     end.
Proof.
  unfold parse_pprof_output.
  destruct (re_search_with match_total_at output) as [[tok unit]|];
    [destruct (py_float tok) as [val|]; [|discriminate]|]; cbn;
    (destruct (re_search_with match_duration_at output) as [tok'|];
     [destruct (py_float tok') as [d|]; [|discriminate]|]); cbn;
    (destruct (parse_lines (split_nl output) ∅) as [fs|]; [|discriminate]); cbn;
    intros [= <- <- <-]; repeat split; eauto.
Qed.

Lemma parse_lines_dom (lines : list string) (functions functions' : gmap string (float * float)) :
  parse_lines lines functions = Ok functions' ->
  forall name,
    name ∈ dom functions'
    <-> name ∈ dom functions
        \/ exists line costs, line ∈ lines /\ row_costs line = Some (Ok (name, costs)).
Proof.
  revert functions. induction lines as [|line rest IH]; intros functions.
  - intros [= <-] name. split; [auto|]. intros [H|(l & c & H & _)]; [exact H|].
    by apply elem_of_nil in H.
  - rewrite parse_lines_cons.
    destruct (row_costs line) as [[[n c]|x]|] eqn:Hrow; [| discriminate |].
    + intros Hp name. rewrite (IH _ Hp name), dom_insert, elem_of_union, elem_of_singleton.
      split.
      * intros [[->|H]|(l & c' & Hl & Hr)]; [right | by left | right].
        -- exists line, c. split; [by left | exact Hrow].
        -- exists l, c'. split; [by right | exact Hr].
      * intros [H|(l & c' & [->|Hl]%elem_of_cons & Hr)]; [by left; right | |].
        -- left; left. congruence.
        -- right. eauto.
    + intros Hp name. rewrite (IH _ Hp name). split.
      * intros [H|(l & c' & Hl & Hr)]; [by left | right].
        exists l, c'. split; [by right | exact Hr].
      * intros [H|(l & c' & [->|Hl]%elem_of_cons & Hr)]; [by left | congruence | right; eauto].
Qed.

Lemma parse_lines_other (lines : list string) (functions functions' : gmap string (float * float))
    (name : string) :
  parse_lines lines functions = Ok functions' ->
  (forall line costs, line ∈ lines -> row_costs line <> Some (Ok (name, costs))) ->
  functions' !! name = functions !! name.
Proof.
  revert functions. induction lines as [|line rest IH]; intros functions.
  - intros [= <-] _. reflexivity.
  - rewrite parse_lines_cons. intros Hp Hno.
    assert (Hrest : forall l c, l ∈ rest -> row_costs l <> Some (Ok (name, c))).
    { intros l c Hl. apply Hno. by right. }
    destruct (row_costs line) as [[[n c]|x]|] eqn:Hrow; [| discriminate |].
    + rewrite (IH _ Hp Hrest). apply lookup_insert_ne. intros ->.
      apply (Hno line c); [by left | exact Hrow].
    + apply (IH _ Hp Hrest).
Qed.

(** X1. The table holds exactly the names of the lines that match the row
    pattern: every other line is passed over, and an output without a
    matching line gives an empty table. *)
Theorem parsed_names_are_row_names (output : string)
    (functions : gmap string (float * float)) (total duration : option float) :
  parse_pprof_output output = Ok (functions, total, duration) ->
  (forall name,
     name ∈ dom functions
     <-> exists line costs, line ∈ split_nl output /\ row_costs line = Some (Ok (name, costs)))
  /\ ((forall line, line ∈ split_nl output -> match_row line = None) -> functions = ∅).
Proof.
  intros [Hp _]%parse_pprof_output_inv.
  assert (Hdom : forall name,
            name ∈ dom functions
            <-> exists line costs,
                  line ∈ split_nl output /\ row_costs line = Some (Ok (name, costs))).
  { intros name. rewrite (parse_lines_dom _ _ _ Hp name), dom_empty, elem_of_empty.
    intuition. }
  split; [exact Hdom|].
  intros Hnone. apply dom_empty_iff_L, set_eq. intros name.
  rewrite Hdom, elem_of_empty. split; [|done].
  intros (line & costs & Hl & Hr). unfold row_costs in Hr.
  rewrite (Hnone line Hl) in Hr. discriminate.
Qed.

Lemma parsed_names_are_row_names_witness :
  parse_pprof_output ("Showing nodes" +:+ nl +:+ "----") = Ok (∅, None, None).
Proof.
  destruct (parse_pprof_output ("Showing nodes" +:+ nl +:+ "----"))
    as [[[functions total] duration]|] eqn:Hp; [|vm_compute in Hp; discriminate Hp].
  destruct (parsed_names_are_row_names _ _ _ _ Hp) as [_ Hempty].
  rewrite Hempty.
  - apply parse_pprof_output_inv in Hp as (_ & Ht & Hd).
    vm_compute in Ht. vm_compute in Hd. by rewrite Ht, Hd.
  - intros line Hl. vm_compute in Hl.
    apply elem_of_cons in Hl as [->|Hl]; [reflexivity|].
    apply list_elem_of_singleton in Hl as ->. reflexivity.
Defined.

(** X2. When a name is repeated, the last of its rows gives the costs of
    the table. *)
Theorem last_row_wins (output : string) (functions : gmap string (float * float))
    (total duration : option float)
    (before after : list string) (line name : string) (costs : float * float) :
  parse_pprof_output output = Ok (functions, total, duration) ->
  split_nl output = (before ++ line :: after)%list ->
  row_costs line = Some (Ok (name, costs)) ->
  (forall l c, l ∈ after -> row_costs l <> Some (Ok (name, c))) ->
  functions !! name = Some costs.
Proof.
  intros [Hp _]%parse_pprof_output_inv Hsplit Hrow Hlast.
  rewrite Hsplit in Hp. clear Hsplit. revert Hp. generalize (∅ : gmap string (float * float)).
  induction before as [|l0 before IH]; intros fs; cbn [app].
  - rewrite parse_lines_cons, Hrow. intros Hp.
    rewrite (parse_lines_other _ _ _ name Hp Hlast). apply lookup_insert_eq.
  - rewrite parse_lines_cons.
    destruct (row_costs l0) as [[[n c]|x]|]; [apply IH | discriminate | apply IH].
Qed.

Lemma last_row_wins_witness :
  exists functions total duration,
    parse_pprof_output ("10ms 1% 1% 20ms 2% f" +:+ nl +:+ "30ms 3% 4% 40ms 4% f")
    = Ok (functions, total, duration)
    /\ functions !! "f" = Some (F64.of_Z 30, F64.of_Z 40).
Proof.
  destruct (parse_pprof_output ("10ms 1% 1% 20ms 2% f" +:+ nl +:+ "30ms 3% 4% 40ms 4% f"))
    as [[[functions total] duration]|] eqn:Hp; [|vm_compute in Hp; discriminate Hp].
  exists functions, total, duration. split; [reflexivity|].
  apply (last_row_wins _ functions total duration
           ["10ms 1% 1% 20ms 2% f"] [] "30ms 3% 4% 40ms 4% f" "f"
           (F64.of_Z 30, F64.of_Z 40) Hp).
  - vm_compute. reflexivity.
  - vm_compute. reflexivity.
  - intros l c Hl. by apply elem_of_nil in Hl.
Defined.

(** ** The parser: which tokens are numbers *)

Lemma row_costs_inv (line name : string) (costs : float * float) :
  row_costs line = Some (Ok (name, costs)) ->
  exists g1 g2 g3 g4 g5 flat_val cum_val,
    match_row line = Some (g1, g2, g3, g4, g5)
    /\ py_float g1 = Ok flat_val /\ py_float g3 = Ok cum_val
    /\ name = strip g5 /\ costs = (to_ms flat_val g2, to_ms cum_val g4).
Proof.
  unfold row_costs.
  destruct (match_row line) as [[[[[g1 g2] g3] g4] g5]|]; [|discriminate].
  destruct (py_float g1) as [v1|] eqn:H1; cbn; [|discriminate].
  destruct (py_float g3) as [v3|] eqn:H3; cbn; [|discriminate].
  intros [= <- <-]. exists g1, g2, g3, g4, g5, v1, v3. auto.
Qed.

Lemma row_costs_raise (line : string) (x : exn) :
  row_costs line = Some (Raise x)
  <-> x = ValueError
      /\ exists g1 g2 g3 g4 g5,
           match_row line = Some (g1, g2, g3, g4, g5)
           /\ (py_float g1 = Raise ValueError \/ py_float g3 = Raise ValueError).
Proof.
  unfold row_costs. split.
  - destruct (match_row line) as [[[[[g1 g2] g3] g4] g5]|]; [|discriminate].
    destruct (py_float g1) as [v1|x1] eqn:H1; cbn.
    + destruct (py_float g3) as [v3|x3] eqn:H3; cbn; [discriminate|].
      intros [= <-]. pose proof (py_float_raises _ _ H3) as ->.
      split; [reflexivity|]. exists g1, g2, g3, g4, g5. auto.
    + intros [= <-]. pose proof (py_float_raises _ _ H1) as ->.
      split; [reflexivity|]. exists g1, g2, g3, g4, g5. auto.
  - intros (-> & g1 & g2 & g3 & g4 & g5 & -> & Hbad).
    destruct (py_float g1) as [v1|x1] eqn:H1; cbn.
    + destruct Hbad as [Hbad|Hbad]; [discriminate|]. rewrite Hbad. reflexivity.
    + by rewrite (py_float_raises _ _ H1).
Qed.

Lemma parse_lines_raise_iff (lines : list string) (functions : gmap string (float * float)) :
  parse_lines lines functions = Raise ValueError
  <-> exists line, line ∈ lines /\ row_costs line = Some (Raise ValueError).
Proof.
  revert functions. induction lines as [|line rest IH]; intros functions.
  - split; [discriminate|]. intros (l & Hl & _). by apply elem_of_nil in Hl.
  - rewrite parse_lines_cons.
    destruct (row_costs line) as [[[n c]|x]|] eqn:Hrow.
    + rewrite IH. split.
      * intros (l & Hl & Hr). exists l. split; [by right | exact Hr].
      * intros (l & [->|Hl]%elem_of_cons & Hr); [congruence | eauto].
    + pose proof (proj1 (proj1 (row_costs_raise line x) Hrow)) as ->. split; [|done].
      intros _. exists line. split; [by left | exact Hrow].
    + rewrite IH. split.
      * intros (l & Hl & Hr). exists l. split; [by right | exact Hr].
      * intros (l & [->|Hl]%elem_of_cons & Hr); [congruence | eauto].
Qed.

(** X3. The parser fails exactly when the token of the total, the token of
    the duration, or the flat or cumulative token of a line matching the
    row pattern is rejected by [float]; the failure is a [ValueError]. *)
Theorem parse_fails_iff (output : string) :
  (parse_pprof_output output = Raise ValueError
   <-> (exists tok unit,
          re_search_with match_total_at output = Some (tok, unit)
          /\ py_float tok = Raise ValueError)
       \/ (exists tok,
             re_search_with match_duration_at output = Some tok
             /\ py_float tok = Raise ValueError)
       \/ (exists line g1 g2 g3 g4 g5,
             line ∈ split_nl output
             /\ match_row line = Some (g1, g2, g3, g4, g5)
             /\ (py_float g1 = Raise ValueError \/ py_float g3 = Raise ValueError)))
  /\ forall x, parse_pprof_output output = Raise x -> x = ValueError.
Proof.
  split; [|apply parse_pprof_output_raises].
  assert (Hrows : parse_lines (split_nl output) ∅ = Raise ValueError
                  <-> exists line g1 g2 g3 g4 g5,
                        line ∈ split_nl output
                        /\ match_row line = Some (g1, g2, g3, g4, g5)
                        /\ (py_float g1 = Raise ValueError \/ py_float g3 = Raise ValueError)).
  { rewrite parse_lines_raise_iff. split.
    - intros (line & Hl & (_ & g1 & g2 & g3 & g4 & g5 & Hm & Hbad)%row_costs_raise).
      exists line, g1, g2, g3, g4, g5. auto.
    - intros (line & g1 & g2 & g3 & g4 & g5 & Hl & Hm & Hbad).
      exists line. split; [exact Hl|]. apply row_costs_raise. split; [reflexivity|].
      exists g1, g2, g3, g4, g5. auto. }
  rewrite <- Hrows. unfold parse_pprof_output.
  destruct (re_search_with match_total_at output) as [[tok unit]|].
  - destruct (py_float tok) as [val|x] eqn:Hval; cbn.
    2:{ rewrite (py_float_raises _ _ Hval). split; [|done].
        intros _. left. exists tok, unit. by rewrite <- (py_float_raises _ _ Hval). }
    destruct (re_search_with match_duration_at output) as [tok'|].
    + destruct (py_float tok') as [d|x] eqn:Hd; cbn.
      2:{ rewrite (py_float_raises _ _ Hd). split; [|done].
          intros _. right; left. exists tok'. by rewrite <- (py_float_raises _ _ Hd). }
      destruct (parse_lines (split_nl output) ∅) as [fs|x]; cbn.
      * split; [discriminate|].
        intros [(t & u & [= <- <-] & H)|[(t & [= <-] & H)|H]]; congruence.
      * split; [intros [= ->]; by right; right|].
        intros [(t & u & [= <- <-] & H)|[(t & [= <-] & H)|H]]; congruence.
    + cbn. destruct (parse_lines (split_nl output) ∅) as [fs|x]; cbn.
      * split; [discriminate|].
        intros [(t & u & [= <- <-] & H)|[(t & [=] & H)|H]]; congruence.
      * split; [intros [= ->]; by right; right|].
        intros [(t & u & [= <- <-] & H)|[(t & [=] & H)|H]]; congruence.
  - cbn. destruct (re_search_with match_duration_at output) as [tok'|].
    + destruct (py_float tok') as [d|x] eqn:Hd; cbn.
      2:{ rewrite (py_float_raises _ _ Hd). split; [|done].
          intros _. right; left. exists tok'. by rewrite <- (py_float_raises _ _ Hd). }
      destruct (parse_lines (split_nl output) ∅) as [fs|x]; cbn.
      * split; [discriminate|].
        intros [(t & u & [=] & H)|[(t & [= <-] & H)|H]]; congruence.
      * split; [intros [= ->]; by right; right|].
        intros [(t & u & [=] & H)|[(t & [= <-] & H)|H]]; congruence.
    + cbn. destruct (parse_lines (split_nl output) ∅) as [fs|x]; cbn.
      * split; [discriminate|].
        intros [(t & u & [=] & H)|[(t & [=] & H)|H]]; congruence.
      * split; [intros [= ->]; by right; right|].
        intros [(t & u & [=] & H)|[(t & [=] & H)|H]]; congruence.
Qed.

Lemma is_digit_not_dot (c : ascii) : is_digit c = true -> is_dot c = false.
Proof.
  unfold is_dot. destruct (Ascii.eqb_spec c "."); [subst; discriminate | reflexivity].
Qed.

Lemma scan_decimal_ok (s : string) (seen_dot : bool) (acc : Z) (ndigits : nat) (nfrac : Z) :
  str_all is_numch s = true ->
  (str_count is_dot s + (if seen_dot then 1 else 0) <= 1)%nat ->
  exists n k,
    scan_decimal s seen_dot acc ndigits nfrac
    = Some (n, (ndigits + str_count is_digit s)%nat, k).
Proof.
  revert seen_dot acc ndigits nfrac.
  induction s as [|c s IH]; intros seen_dot acc ndigits nfrac; cbn.
  - intros _ _. rewrite Nat.add_0_r. eauto.
  - unfold is_numch. fold (is_dot c).
    intros [Hc Hs]%andb_true_iff Hdots.
    destruct (is_digit c) eqn:Hd.
    + rewrite (is_digit_not_dot _ Hd) in Hdots. cbn in Hdots.
      destruct (IH seen_dot (10 * acc + digit_val c)%Z (S ndigits)
                  (if seen_dot then (nfrac + 1)%Z else nfrac) Hs Hdots) as (n & k & ->).
      exists n, k. do 3 f_equal. lia.
    + cbn in Hc. rewrite Hc in *. cbn in Hdots.
      destruct seen_dot; [lia|].
      destruct (IH true acc ndigits nfrac Hs) as (n & k & ->); [lia|].
      exists n, k. reflexivity.
Qed.

Lemma scan_decimal_inv (s : string) (seen_dot : bool) (acc : Z) (ndigits : nat) (nfrac : Z)
    (n : Z) (d : nat) (k : Z) :
  scan_decimal s seen_dot acc ndigits nfrac = Some (n, d, k) ->
  d = (ndigits + str_count is_digit s)%nat
  /\ (str_count is_dot s + (if seen_dot then 1 else 0) <= 1)%nat
  /\ ((0 <= acc)%Z -> (0 <= n)%Z)
  /\ ((0 <= nfrac)%Z -> (0 <= k)%Z).
Proof.
  revert seen_dot acc ndigits nfrac.
  induction s as [|c s IH]; intros seen_dot acc ndigits nfrac; cbn.
  - intros [= <- <- <-]. destruct seen_dot; repeat split; auto; lia.
  - fold (is_dot c). destruct (is_digit c) eqn:Hd.
    + rewrite (is_digit_not_dot _ Hd). intros (-> & Hdots & Hn & Hk)%IH.
      repeat split; [lia | exact Hdots | |].
      * intros Hacc. apply Hn. unfold digit_val, is_digit in *.
        apply andb_true_iff in Hd as [Hlo _]. apply N.leb_le in Hlo. lia.
      * intros Hf. apply Hk. destruct seen_dot; lia.
    + destruct (is_dot c); [|discriminate].
      destruct seen_dot; [discriminate|].
      intros (-> & Hdots & Hn & Hk)%IH. repeat split; auto; lia.
Qed.

(** A token of digits and dots is a number exactly when it has a digit and
    at most one dot. *)
Lemma py_float_rejects_iff (tok : string) :
  str_all is_numch tok = true ->
  py_float tok = Raise ValueError
  <-> str_count is_digit tok = 0%nat \/ (2 <= str_count is_dot tok)%nat.
Proof.
  intros Hall. unfold py_float.
  destruct (le_lt_dec (str_count is_dot tok) 1) as [Hdots|Hdots].
  - destruct (scan_decimal_ok tok false 0%Z 0%nat 0%Z Hall) as (n & k & ->); [lia|].
    cbn. destruct (str_count is_digit tok); [intuition | split; [discriminate | lia]].
  - destruct (scan_decimal tok false 0 0%nat 0) as [[[n d] k]|] eqn:Hs.
    + apply scan_decimal_inv in Hs as (_ & Hle & _). lia.
    + split; [intros _; right; lia | reflexivity].
Qed.

Lemma span_all (p : ascii -> bool) (s : string) : str_all p (fst (span p s)) = true.
Proof.
  induction s as [|c s IH]; cbn; [reflexivity|].
  destruct (p c) eqn:Hc; [|reflexivity].
  destruct (span p s) as [a b]. cbn in *. by rewrite Hc, IH.
Qed.

Lemma match_numunit_all (s tok unit rest : string) :
  match_numunit s = Some (tok, unit, rest) -> str_all is_numch tok = true.
Proof.
  unfold match_numunit. pose proof (span_all is_numch s) as Hall.
  destruct (span is_numch s) as [t r]. cbn in Hall.
  destruct t as [|c t]; [discriminate|].
  destruct r as [|[[] [] [] [] [] [] [] []] [|[[] [] [] [] [] [] [] []] r]]; try discriminate;
    intros [= <- _ _]; exact Hall.
Qed.

Lemma match_row_tokens (line g1 g2 g3 g4 g5 : string) :
  match_row line = Some (g1, g2, g3, g4, g5) ->
  str_all is_numch g1 = true /\ str_all is_numch g3 = true.
Proof.
  unfold match_row.
  destruct (match_numunit (lstrip line)) as [[[t1 u1] r1]|] eqn:H1; [|discriminate]. cbn.
  destruct (match_pct r1) as [r2|]; [|discriminate]. cbn.
  destruct (match_pct r2) as [r3|]; [|discriminate]. cbn.
  destruct (match_spaces1 r3) as [r4|]; [|discriminate]. cbn.
  destruct (match_numunit r4) as [[[t3 u3] r5]|] eqn:H3; [|discriminate]. cbn.
  destruct (match_pct r5) as [r6|]; [|discriminate]. cbn.
  destruct (match_name r6) as [n|]; [|discriminate]. cbn.
  intros [= <- <- <- <- <-]. split; by eapply match_numunit_all.
Qed.

(** X4. In a line that matches the row pattern, the flat (or cumulative)
    time is rejected exactly when its token has no digit or has two dots or
    more. *)
Theorem time_token_rejected_iff (line g1 g2 g3 g4 g5 : string) :
  match_row line = Some (g1, g2, g3, g4, g5) ->
  (py_float g1 = Raise ValueError
   <-> str_count is_digit g1 = 0%nat \/ (2 <= str_count is_dot g1)%nat)
  /\ (py_float g3 = Raise ValueError
      <-> str_count is_digit g3 = 0%nat \/ (2 <= str_count is_dot g3)%nat).
Proof.
  intros [H1 H3]%match_row_tokens. split; by apply py_float_rejects_iff.
Qed.

Lemma time_token_rejected_iff_witness :
  py_float ".." = Raise ValueError /\ py_float "1.2.3" = Raise ValueError.
Proof.
  destruct (time_token_rejected_iff "..ms 1% 1% 1.2.3s 1% f" ".." "ms" "1.2.3" "s" "f")
    as [H1 H3]; [vm_compute; reflexivity|].
  split; [apply H1; left; reflexivity | apply H3; right; vm_compute; lia].
Defined.

(** ** The parser: what the costs can be *)

Lemma binary_round_aux_cost (mx ex : Z) (lx : location) :
  (0 <= mx)%Z -> is_cost (binary_round_aux F64.prec F64.emax false mx ex lx) = true.
Proof.
  intros Hm. unfold binary_round_aux.
  pose proof (shr_fexp_nonneg mx ex lx Hm) as H1.
  destruct (shr_fexp F64.prec F64.emax mx ex lx) as [mrs' e']. simpl in H1.
  pose proof (shr_fexp_nonneg _ e' loc_Exact
                (round_nearest_even_nonneg _ (loc_of_shr_record mrs') H1)) as H2.
  destruct (shr_fexp F64.prec F64.emax _ e' loc_Exact) as [mrs'' e'']. simpl in H2.
  destruct (shr_m mrs'') as [|p|p]; [reflexivity | | lia].
  destruct (Z.leb e'' (F64.emax - F64.prec)); reflexivity.
Qed.

Lemma round_ratio_cost (n d : Z) :
  (0 <= n)%Z -> (0 < d)%Z -> is_cost (round_ratio n d) = true.
Proof.
  intros Hn Hd. unfold round_ratio. destruct n as [|p|p]; [reflexivity | | lia].
  unfold SFdiv_core_binary.
  set (e' := Z.min _ _). set (m' := match (0 - 0 - e')%Z with Z0 => _ | _ => _ end).
  assert (Hm' : (0 <= m')%Z).
  { subst m'. destruct (0 - 0 - e')%Z; [lia | | lia]. apply Z.shiftl_nonneg. lia. }
  pose proof (Z.div_pos m' d Hm' Hd) as Hq. unfold Z.div in Hq.
  destruct (Z.div_eucl m' d) as [q r]. by apply binary_round_aux_cost.
Qed.

Lemma py_float_cost (s : string) (v : float) : py_float s = Ok v -> is_cost v = true.
Proof.
  unfold py_float.
  destruct (scan_decimal s false 0 0%nat 0) as [[[n [|d]] k]|] eqn:Hs; try discriminate.
  intros [= <-]. apply scan_decimal_inv in Hs as (_ & _ & Hn & Hk).
  apply round_ratio_cost; [apply Hn; lia|]. apply Z.pow_pos_nonneg; [lia|]. apply Hk. lia.
Qed.

Lemma to_ms_cost (val : float) (unit : string) :
  is_cost val = true -> is_cost (to_ms val unit) = true.
Proof.
  intros Hv. unfold to_ms. destruct (String.eqb unit "ms"); [exact Hv|].
  assert (exists m e, F64.of_Z 1000 = S754_finite false m e) as (m & e & ->)
    by (vm_compute; eauto).
  destruct val as [[]|[]| |[] mv ev]; try discriminate; try reflexivity.
  unfold F64.mul, SFmul. by apply binary_round_aux_cost.
Qed.

Lemma parse_lines_costs (lines : list string) (functions functions' : gmap string (float * float)) :
  parse_lines lines functions = Ok functions' ->
  (forall name flat cum, functions !! name = Some (flat, cum) ->
     is_cost flat = true /\ is_cost cum = true) ->
  forall name flat cum, functions' !! name = Some (flat, cum) ->
    is_cost flat = true /\ is_cost cum = true.
Proof.
  revert functions. induction lines as [|line rest IH]; intros functions.
  - intros [= <-] H. exact H.
  - rewrite parse_lines_cons.
    destruct (row_costs line) as [[[n c]|x]|] eqn:Hrow; [| discriminate | apply IH].
    intros Hp Hinv. apply (IH _ Hp). intros name flat cum.
    destruct (row_costs_inv _ _ _ Hrow) as (g1 & g2 & g3 & g4 & g5 & v1 & v3 & _ & H1 & H3 & _ & ->).
    intros [[_ [= <- <-]]|[_ H]]%lookup_insert_Some; [|by eapply Hinv].
    split; apply to_ms_cost; by eapply py_float_cost.
Qed.

(** X5. Every cost of a parsed table, the total and the duration are zero,
    positive or plus infinity: the parser gives no NaN and no negative
    number. *)
Theorem parsed_costs_not_negative (output : string)
    (functions : gmap string (float * float)) (total duration : option float) :
  parse_pprof_output output = Ok (functions, total, duration) ->
  (forall name flat cum, functions !! name = Some (flat, cum) ->
     is_cost flat = true /\ is_cost cum = true)
  /\ (forall t, total = Some t -> is_cost t = true)
  /\ (forall d, duration = Some d -> is_cost d = true).
Proof.
  intros (Hp & Ht & Hd)%parse_pprof_output_inv. split; [|split].
  - apply (parse_lines_costs _ _ _ Hp). intros name flat cum H.
    by rewrite lookup_empty in H.
  - intros t ->. destruct (re_search_with match_total_at output) as [[tok unit]|];
      [|discriminate].
    destruct Ht as (val & Hval & [= ->]). apply to_ms_cost. by eapply py_float_cost.
  - intros d ->. destruct (re_search_with match_duration_at output) as [tok|];
      [|discriminate].
    destruct Hd as (d' & Hval & [= ->]). by eapply py_float_cost.
Qed.

Lemma parsed_costs_not_negative_witness :
  exists functions total duration,
    parse_pprof_output ("Duration: 30.13s, Total samples = 42.57s" +:+ nl
                        +:+ "0 0% 0% 1.5s 2% runtime.main" +:+ nl
                        +:+ ".5s 1% 1% 1.5s 2% runtime.main")
    = Ok (functions, total, duration)
    /\ (forall name flat cum, functions !! name = Some (flat, cum) ->
          is_cost flat = true /\ is_cost cum = true)
    /\ (forall t, total = Some t -> is_cost t = true)
    /\ (forall d, duration = Some d -> is_cost d = true).
Proof.
  destruct (parse_pprof_output ("Duration: 30.13s, Total samples = 42.57s" +:+ nl
                        +:+ "0 0% 0% 1.5s 2% runtime.main" +:+ nl
                        +:+ ".5s 1% 1% 1.5s 2% runtime.main"))
    as [[[functions total] duration]|] eqn:Hp; [|vm_compute in Hp; discriminate Hp].
  exists functions, total, duration. split; [reflexivity|].
  exact (parsed_costs_not_negative _ _ _ _ Hp).
Defined.

(** ** The parser: names and headers *)

Lemma lstrip_cons (c : ascii) (s : string) :
  lstrip (String c s) = if is_space c then lstrip s else String c s.
Proof.
  unfold lstrip. cbn. destruct (is_space c); [|reflexivity].
  by destruct (span is_space s).
Qed.

Lemma rstrip_idemp (s : string) : rstrip (rstrip s) = rstrip s.
Proof.
  induction s as [|c s IH]; [reflexivity|]. cbn.
  destruct (rstrip s) as [|d r] eqn:Hr.
  - destruct (is_space c) eqn:Hc; [reflexivity|]. cbn. by rewrite Hc.
  - cbn [rstrip]. cbn [rstrip] in IH. rewrite IH. reflexivity.
Qed.

Lemma rstrip_head (c : ascii) (s : string) :
  is_space c = false -> exists r, rstrip (String c s) = String c r.
Proof.
  intros Hc. cbn. destruct (rstrip s); [rewrite Hc|]; eauto.
Qed.

Lemma lstrip_rstrip_lstrip (s : string) : lstrip (rstrip (lstrip s)) = rstrip (lstrip s).
Proof.
  induction s as [|c s IH]; [reflexivity|].
  rewrite lstrip_cons. destruct (is_space c) eqn:Hc; [exact IH|].
  destruct (rstrip_head c s Hc) as [r ->]. by rewrite lstrip_cons, Hc.
Qed.

Lemma strip_idemp (s : string) : strip (strip s) = strip s.
Proof. unfold strip. by rewrite lstrip_rstrip_lstrip, rstrip_idemp. Qed.

Lemma strip_prefix_spec (p s r : string) : strip_prefix p s = Some r -> s = p +:+ r.
Proof.
  revert s. induction p as [|c p IH]; intros s; cbn.
  - destruct s; intros [= <-]; reflexivity.
  - destruct s as [|d s]; [discriminate|].
    destruct (Ascii.eqb_spec c d) as [->|]; [|discriminate].
    intros ->%IH. reflexivity.
Qed.

Lemma re_search_with_Some {A : Type} (match_at : string -> option A) (s : string) (x : A) :
  re_search_with match_at s = Some x ->
  exists before rest, s = before +:+ rest /\ match_at rest = Some x.
Proof.
  induction s as [|c s IH]; cbn.
  - destruct (match_at EmptyString) eqn:Hm; [|discriminate].
    intros [= <-]. exists EmptyString, EmptyString. auto.
  - destruct (match_at (String c s)) eqn:Hm.
    + intros [= <-]. exists EmptyString, (String c s). auto.
    + intros (b & r & -> & Hr)%IH. exists (String c b), r. auto.
Qed.

(** X6. Every function name of a parsed table is stripped: it has no white
    space at its start or at its end. *)
Theorem parsed_names_stripped (output : string)
    (functions : gmap string (float * float)) (total duration : option float)
    (name : string) :
  parse_pprof_output output = Ok (functions, total, duration) ->
  name ∈ dom functions ->
  strip name = name.
Proof.
  intros [Hp _]%parse_pprof_output_inv Hin.
  apply (parse_lines_dom _ _ _ Hp) in Hin as [Hin|(line & costs & _ & Hrow)].
  - rewrite dom_empty in Hin. by apply elem_of_empty in Hin.
  - destruct (row_costs_inv _ _ _ Hrow) as (_ & _ & _ & _ & g5 & _ & _ & _ & _ & _ & -> & _).
    apply strip_idemp.
Qed.

Lemma parsed_names_stripped_witness :
  exists functions total duration,
    parse_pprof_output "1ms 1% 1% 2ms 2%   game_main/world.Update   "
    = Ok (functions, total, duration)
    /\ dom functions = {[ "game_main/world.Update" ]}
    /\ strip "game_main/world.Update" = "game_main/world.Update".
Proof.
  destruct (parse_pprof_output "1ms 1% 1% 2ms 2%   game_main/world.Update   ")
    as [[[functions total] duration]|] eqn:Hp; [|vm_compute in Hp; discriminate Hp].
  exists functions, total, duration. split; [reflexivity|].
  assert (Hdom : dom functions = {[ "game_main/world.Update" ]}).
  { assert (Some functions
            = Some (<[ "game_main/world.Update" := (F64.of_Z 1, F64.of_Z 2) ]> ∅)) as [= ->].
    { change (Some functions)
        with (match Ok (functions, total, duration) with
              | Ok (f, _, _) => Some f | Raise _ => None end).
      rewrite <- Hp. vm_compute. reflexivity. }
    rewrite insert_empty. apply dom_singleton_L. }
  split; [exact Hdom|].
  apply (parsed_names_stripped _ functions total duration _ Hp).
  rewrite Hdom. by apply elem_of_singleton.
Defined.

(** X7. An output in which [Total samples] does not occur has no total,
    and one in which [Duration:] does not occur has no duration: the two
    header values are optional. *)
Theorem absent_header_gives_none (output : string)
    (functions : gmap string (float * float)) (total duration : option float) :
  parse_pprof_output output = Ok (functions, total, duration) ->
  (~ occurs_in "Total samples" output -> total = None)
  /\ (~ occurs_in "Duration:" output -> duration = None).
Proof.
  intros (_ & Ht & Hd)%parse_pprof_output_inv. split.
  - intros Hno. destruct (re_search_with match_total_at output) as [[tok unit]|] eqn:Hs;
      [|exact Ht].
    exfalso. apply Hno.
    apply re_search_with_Some in Hs as (b & r & -> & Hm). unfold match_total_at in Hm.
    destruct (strip_prefix "Total samples" r) as [r1|] eqn:Hp; [|discriminate].
    apply strip_prefix_spec in Hp as ->. by exists b, r1.
  - intros Hno. destruct (re_search_with match_duration_at output) as [tok|] eqn:Hs;
      [|exact Hd].
    exfalso. apply Hno.
    apply re_search_with_Some in Hs as (b & r & -> & Hm). unfold match_duration_at in Hm.
    destruct (strip_prefix "Duration:" r) as [r1|] eqn:Hp; [|discriminate].
    apply strip_prefix_spec in Hp as ->. by exists b, r1.
Qed.

Lemma absent_header_gives_none_witness :
  exists functions,
    parse_pprof_output "1ms 1% 1% 2ms 2% f" = Ok (functions, None, None).
Proof.
  destruct (parse_pprof_output "1ms 1% 1% 2ms 2% f")
    as [[[functions total] duration]|] eqn:Hp; [|vm_compute in Hp; discriminate Hp].
  exists functions.
  destruct (absent_header_gives_none _ _ _ _ Hp) as [Ht Hd].
  rewrite Ht, Hd; [reflexivity | |].
  - intros Hocc%contains_spec. vm_compute in Hocc. discriminate Hocc.
  - intros Hocc%contains_spec. vm_compute in Hocc. discriminate Hocc.
Defined.

(** ** The engine: the lists as a whole *)

Lemma classify_names (a : args) (e : entry) (b : buckets) :
  e_name <$> (b_regressions (classify a e b) ++ b_improvements (classify a e b)
              ++ b_stable (classify a e b))%list
  ≡ₚ e_name e :: (e_name <$> (b_regressions b ++ b_improvements b ++ b_stable b)%list).
Proof.
  unfold classify.
  destruct (is_regression a _ _ _ _); [|destruct (is_improvement a _ _ _ _)]; cbn;
    rewrite !fmap_app; cbn.
  - by rewrite <- Permutation_cons_append.
  - rewrite <- Permutation_cons_append. cbn. symmetry. apply Permutation_middle.
  - rewrite <- Permutation_cons_append, 2!app_assoc. symmetry. apply Permutation_middle.
Qed.

Lemma compare_loop_names (a : args) (old_funcs new_funcs : gmap string (float * float))
    (names : list string) (b b' : buckets) :
  compare_loop a old_funcs new_funcs names b = Ok b' ->
  e_name <$> (b_regressions b' ++ b_improvements b' ++ b_stable b')%list
  ≡ₚ (names ++ (e_name <$> (b_regressions b ++ b_improvements b ++ b_stable b)%list))%list.
Proof.
  revert b. induction names as [|name rest IH]; intros b; cbn.
  - intros [= <-]. reflexivity.
  - destruct (make_entry old_funcs new_funcs name) as [e|] eqn:He; [|discriminate]. cbn.
    intros Hloop. rewrite (IH _ Hloop), classify_names.
    destruct (make_entry_inv _ _ _ _ He) as (?&?&?&?&_&_&->&_).
    symmetry. apply Permutation_middle.
Qed.

Lemma only_loop_names (re_search : string -> string -> bool) (a : args)
    (funcs : gmap string (float * float)) (names : list string)
    (acc acc' : list (string * float * float)) :
  only_loop re_search a funcs names acc = Ok acc' ->
  exists l, (fun x => x.1.1) <$> acc' = (((fun x => x.1.1) <$> acc) ++ l)%list
            /\ l `sublist_of` names.
Proof.
  revert acc. induction names as [|name rest IH]; intros acc; cbn.
  - intros [= <-]. exists []. by rewrite app_nil_r.
  - destruct (should_exclude re_search name (exclude a)).
    { intros (l & -> & Hl)%IH. exists l. split; [reflexivity | by apply sublist_cons]. }
    unfold lookup_item. destruct (funcs !! name) as [[f c]|]; cbn; [|discriminate].
    destruct (F64.gtb c (F64.of_Z 200)); cbn.
    + intros (l & -> & Hl)%IH. exists (name :: l). split; [|by apply sublist_skip].
      by rewrite fmap_app, <- app_assoc.
    + intros (l & -> & Hl)%IH. exists l. split; [reflexivity | by apply sublist_cons].
Qed.

Lemma should_exclude_spec (re_search : string -> string -> bool) (name : string)
    (patterns : list string) :
  should_exclude re_search name patterns = true
  <-> exists pattern, pattern ∈ patterns /\ re_search pattern name = true.
Proof.
  induction patterns as [|p rest IH]; cbn.
  - split; [discriminate|]. intros (p & Hp & _). by apply elem_of_nil in Hp.
  - destruct (re_search p name) eqn:Hp.
    + split; [|done]. intros _. exists p. split; [by left | exact Hp].
    + rewrite IH. split.
      * intros (q & Hq & Hm). exists q. split; [by right | exact Hm].
      * intros (q & [->|Hq]%elem_of_cons & Hm); [congruence | eauto].
Qed.

Section EngineWhole.
Variable re_search : string -> string -> bool.
Variable set_iter : gset string -> list string.
Hypothesis set_iter_perm : forall X : gset string, set_iter X ≡ₚ elements X.
Variable a : args.
Variables old_funcs new_funcs : gmap string (float * float).

Lemma NoDup_set_iter (X : gset string) : NoDup (set_iter X).
Proof. rewrite (set_iter_perm X). apply NoDup_elements. Qed.

Lemma diff_names_perm (c : comparison) :
  diff re_search set_iter a old_funcs new_funcs = Ok c ->
  e_name <$> (regressions c ++ improvements c ++ stable c)%list
  ≡ₚ elements (common_names c).
Proof.
  intros Hc.
  destruct (diff_inv _ _ _ _ _ _ Hc) as (b & nof & oof & _ & Hb & -> & -> & -> & _).
  rewrite !(sort_by_key_perm e_cum_delta _ _).
  rewrite (compare_loop_names _ _ _ _ _ _ Hb). cbn. rewrite app_nil_r.
  apply set_iter_perm.
Qed.

Lemma diff_only_spec (c : comparison) :
  diff re_search set_iter a old_funcs new_funcs = Ok c ->
  (forall name flat cum,
     (name, flat, cum) ∈ new_only_filtered c
     <-> new_funcs !! name = Some (flat, cum) /\ (name ∉ dom old_funcs)
         /\ should_exclude re_search name (exclude a) = false
         /\ F64.gtb cum (F64.of_Z 200) = true)
  /\ (forall name flat cum,
        (name, flat, cum) ∈ old_only_filtered c
        <-> old_funcs !! name = Some (flat, cum) /\ (name ∉ dom new_funcs)
            /\ should_exclude re_search name (exclude a) = false
            /\ F64.gtb cum (F64.of_Z 200) = true).
Proof.
  intros Hc.
  pose proof (diff_common_names _ _ _ set_iter_perm _ _ _ Hc) as Hnames.
  destruct (diff_inv _ _ _ _ _ _ Hc)
    as (b & nof & oof & _ & _ & _ & _ & _ & Hnof & -> & Hoof & ->).
  pose proof (only_loop_spec _ _ _ _ _ _ Hnof) as Sn.
  pose proof (only_loop_spec _ _ _ _ _ _ Hoof) as So.
  split.
  - intros name flat cum. unfold sort_by_key. rewrite stable_sort_elem_of, Sn, elem_of_nil.
    rewrite (elem_of_set_iter set_iter set_iter_perm), !elem_of_difference.
    split.
    + intros [[]|([[_ Hno] _] & Hx & Hl & Hcum)]. auto.
    + intros (Hl & Hno & Hx & Hcum). right. repeat split; try assumption.
      * apply elem_of_dom. eauto.
      * intros (Hd & _)%Hnames. by apply Hno.
  - intros name flat cum. unfold sort_by_key. rewrite stable_sort_elem_of, So, elem_of_nil.
    rewrite (elem_of_set_iter set_iter set_iter_perm), !elem_of_difference.
    split.
    + intros [[]|([[_ Hno] _] & Hx & Hl & Hcum)]. auto.
    + intros (Hl & Hno & Hx & Hcum). right. repeat split; try assumption.
      * apply elem_of_dom. eauto.
      * intros (_ & Hd & _)%Hnames. by apply Hno.
Qed.

Lemma diff_only_NoDup (c : comparison) :
  diff re_search set_iter a old_funcs new_funcs = Ok c ->
  NoDup ((fun x => x.1.1) <$> new_only_filtered c)
  /\ NoDup ((fun x => x.1.1) <$> old_only_filtered c).
Proof.
  intros Hc.
  destruct (diff_inv _ _ _ _ _ _ Hc)
    as (b & nof & oof & _ & _ & _ & _ & _ & Hnof & -> & Hoof & ->).
  split.
  - rewrite (sort_by_key_perm _ _ _).
    destruct (only_loop_names _ _ _ _ _ _ Hnof) as (l & -> & Hl). cbn.
    eapply sublist_NoDup; [apply NoDup_set_iter | exact Hl].
  - rewrite (sort_by_key_perm _ _ _).
    destruct (only_loop_names _ _ _ _ _ _ Hoof) as (l & -> & Hl). cbn.
    eapply sublist_NoDup; [apply NoDup_set_iter | exact Hl].
Qed.

(** X8. The regressions, the improvements and the stable functions
    together hold every common function that is not excluded once, and no
    other name. *)
Theorem compared_names_partition (c : comparison) :
  diff re_search set_iter a old_funcs new_funcs = Ok c ->
  e_name <$> (regressions c ++ improvements c ++ stable c)%list
  ≡ₚ elements (common_names c)
  /\ NoDup (e_name <$> (regressions c ++ improvements c ++ stable c)%list)
  /\ (forall name, name ∈ common_names c
        <-> listed name (regressions c) \/ listed name (improvements c)
            \/ listed name (stable c)).
Proof.
  intros Hc. pose proof (diff_names_perm c Hc) as Hperm.
  split; [exact Hperm|]. split; [rewrite Hperm; apply NoDup_elements|].
  intros name. rewrite <- elem_of_elements, <- Hperm, list_elem_of_fmap.
  setoid_rewrite elem_of_app. setoid_rewrite elem_of_app. unfold listed. split.
  - intros (e & -> & [H|[H|H]]); eauto.
  - intros [(e & H & <-)|[(e & H & <-)|(e & H & <-)]]; eauto 6.
Qed.

(** X9. In a comparison that returned, when every function of both tables
    is excluded, and so when the tables have no function in common, the
    three lists are empty, no function is counted as compared, and the
    excluded functions are the functions of both tables. *)
Theorem nothing_to_compare (c : comparison) :
  (forall name, name ∈ dom old_funcs -> name ∈ dom new_funcs ->
                should_exclude re_search name (exclude a) = true) ->
  diff re_search set_iter a old_funcs new_funcs = Ok c ->
  regressions c = [] /\ improvements c = [] /\ stable c = []
  /\ common_names c = ∅
  /\ excluded c = dom old_funcs ∩ dom new_funcs.
Proof.
  intros Hall Hc.
  pose proof (diff_common_names _ _ _ set_iter_perm _ _ _ Hc) as Hnames.
  pose proof (diff_entries _ _ _ _ _ _ Hc) as Hent.
  assert (Hcommon : common_names c = ∅).
  { apply set_eq. intros n. rewrite elem_of_empty. split; [|done].
    intros (Ho & Hn & Hx)%Hnames. rewrite (Hall n Ho Hn) in Hx. discriminate. }
  assert (Hnone : forall e, ~ built old_funcs new_funcs (set_iter (common_names c)) e).
  { intros e [Hin _]. apply (elem_of_set_iter set_iter set_iter_perm) in Hin.
    rewrite Hcommon in Hin. by apply elem_of_empty in Hin. }
  repeat split.
  - apply elem_of_nil_inv. intros e [Hb _]%Hent. by apply (Hnone e).
  - apply elem_of_nil_inv. intros e [Hb _]%Hent. by apply (Hnone e).
  - apply elem_of_nil_inv. intros e [Hb _]%Hent. by apply (Hnone e).
  - exact Hcommon.
  - apply set_eq. intros n. destruct (Hnames n) as [_ ->].
    rewrite elem_of_intersection. split; [tauto|]. intros [Ho Hn]. auto.
Qed.

(** X10. The new functions that are listed are the functions of the new
    table only that no pattern excludes and whose cumulative cost is above
    200 ms, each of them once; likewise the removed functions for the old
    table. *)
Theorem new_and_removed_exactly (c : comparison) :
  diff re_search set_iter a old_funcs new_funcs = Ok c ->
  (forall name flat cum,
     (name, flat, cum) ∈ new_only_filtered c
     <-> new_funcs !! name = Some (flat, cum) /\ (name ∉ dom old_funcs)
         /\ should_exclude re_search name (exclude a) = false
         /\ F64.gtb cum (F64.of_Z 200) = true)
  /\ (forall name flat cum,
        (name, flat, cum) ∈ old_only_filtered c
        <-> old_funcs !! name = Some (flat, cum) /\ (name ∉ dom new_funcs)
            /\ should_exclude re_search name (exclude a) = false
            /\ F64.gtb cum (F64.of_Z 200) = true)
  /\ NoDup ((fun x => x.1.1) <$> new_only_filtered c)
  /\ NoDup ((fun x => x.1.1) <$> old_only_filtered c).
Proof.
  intros Hc. destruct (diff_only_spec c Hc) as [Hn Ho].
  destruct (diff_only_NoDup c Hc) as [Un Uo]. auto.
Qed.

(** X11. The excluded functions are the common functions that at least one
    pattern matches, in whatever order the patterns are given; without a
    pattern no function is excluded and every common function is
    compared. *)
Theorem excluded_by_some_pattern (c : comparison) :
  diff re_search set_iter a old_funcs new_funcs = Ok c ->
  (forall name,
     name ∈ excluded c
     <-> name ∈ dom old_funcs /\ name ∈ dom new_funcs
         /\ exists pattern, pattern ∈ exclude a /\ re_search pattern name = true)
  /\ (exclude a = [] ->
      excluded c = ∅ /\ common_names c = dom old_funcs ∩ dom new_funcs).
Proof.
  intros Hc.
  pose proof (diff_common_names _ _ _ set_iter_perm _ _ _ Hc) as Hnames.
  split.
  - intros name. destruct (Hnames name) as [_ ->]. by rewrite should_exclude_spec.
  - intros Hnil. split; apply set_eq; intros name.
    + destruct (Hnames name) as [_ ->]. rewrite Hnil, elem_of_empty. cbn.
      split; [intros (_ & _ & ?); discriminate | done].
    + destruct (Hnames name) as [-> _]. rewrite Hnil, elem_of_intersection. cbn. tauto.
Qed.

End EngineWhole.

(** ** The engine: iteration order and the roles of the two tables *)

Section EngineOrders.
Variable re_search : string -> string -> bool.
Variables set_iter1 set_iter2 : gset string -> list string.
Hypothesis set_iter1_perm : forall X : gset string, set_iter1 X ≡ₚ elements X.
Hypothesis set_iter2_perm : forall X : gset string, set_iter2 X ≡ₚ elements X.
Variable a : args.
Variables old_funcs new_funcs : gmap string (float * float).

Lemma entries_NoDup (l : list entry) : NoDup (e_name <$> l) -> NoDup l.
Proof. apply NoDup_fmap_1. Qed.

Lemma only_NoDup (l : list (string * float * float)) :
  NoDup ((fun x => x.1.1) <$> l) -> NoDup l.
Proof. apply NoDup_fmap_1. Qed.

(** X12. The order in which Python iterates its sets changes nothing but
    the order of the entries: with two iteration orders the comparison
    counts the same common and excluded functions and gives the same
    regressions, improvements, stable, new and removed functions, up to a
    permutation of each list. *)
Theorem iteration_order_irrelevant (c1 c2 : comparison) :
  diff re_search set_iter1 a old_funcs new_funcs = Ok c1 ->
  diff re_search set_iter2 a old_funcs new_funcs = Ok c2 ->
  common_names c1 = common_names c2
  /\ excluded c1 = excluded c2
  /\ regressions c1 ≡ₚ regressions c2
  /\ improvements c1 ≡ₚ improvements c2
  /\ stable c1 ≡ₚ stable c2
  /\ new_only_filtered c1 ≡ₚ new_only_filtered c2
  /\ old_only_filtered c1 ≡ₚ old_only_filtered c2.
Proof.
  intros H1 H2.
  pose proof (diff_common_names _ _ _ set_iter1_perm _ _ _ H1) as N1.
  pose proof (diff_common_names _ _ _ set_iter2_perm _ _ _ H2) as N2.
  assert (Hcommon : common_names c1 = common_names c2).
  { apply set_eq. intros n. destruct (N1 n) as [-> _]. destruct (N2 n) as [-> _]. done. }
  assert (Hexcl : excluded c1 = excluded c2).
  { apply set_eq. intros n. destruct (N1 n) as [_ ->]. destruct (N2 n) as [_ ->]. done. }
  pose proof (diff_entries _ _ _ _ _ _ H1) as E1.
  pose proof (diff_entries _ _ _ _ _ _ H2) as E2.
  assert (Hbuilt : forall e,
            built old_funcs new_funcs (set_iter1 (common_names c1)) e
            <-> built old_funcs new_funcs (set_iter2 (common_names c2)) e).
  { intros e. unfold built.
    rewrite (elem_of_set_iter _ set_iter1_perm), (elem_of_set_iter _ set_iter2_perm), Hcommon.
    done. }
  pose proof (diff_names_perm _ _ set_iter1_perm _ _ _ _ H1) as D1.
  pose proof (diff_names_perm _ _ set_iter2_perm _ _ _ _ H2) as D2.
  assert (NoDup (regressions c1 ++ improvements c1 ++ stable c1)%list) as D1'
    by (apply entries_NoDup; rewrite D1; apply NoDup_elements).
  assert (NoDup (regressions c2 ++ improvements c2 ++ stable c2)%list) as D2'
    by (apply entries_NoDup; rewrite D2; apply NoDup_elements).
  clear D1 D2. rename D1' into D1, D2' into D2.
  apply NoDup_app in D1 as (Dr1 & _ & [Di1 [_ Ds1]]%NoDup_app).
  apply NoDup_app in D2 as (Dr2 & _ & [Di2 [_ Ds2]]%NoDup_app).
  destruct (diff_only_spec _ _ set_iter1_perm _ _ _ _ H1) as (Wn1 & Wo1).
  destruct (diff_only_NoDup _ _ set_iter1_perm _ _ _ _ H1) as (Un1 & Uo1).
  destruct (diff_only_spec _ _ set_iter2_perm _ _ _ _ H2) as (Wn2 & Wo2).
  destruct (diff_only_NoDup _ _ set_iter2_perm _ _ _ _ H2) as (Un2 & Uo2).
  apply only_NoDup in Un1, Uo1, Un2, Uo2.
  repeat split; try assumption.
  - apply NoDup_Permutation; [assumption..|]. intros e.
    rewrite (proj1 (E1 e)), (proj1 (E2 e)), Hbuilt. done.
  - apply NoDup_Permutation; [assumption..|]. intros e.
    rewrite (proj1 (proj2 (E1 e))), (proj1 (proj2 (E2 e))), Hbuilt. done.
  - apply NoDup_Permutation; [assumption..|]. intros e.
    rewrite (proj2 (proj2 (E1 e))), (proj2 (proj2 (E2 e))), Hbuilt. done.
  - apply NoDup_Permutation; [assumption..|]. intros [[n f] cu]. by rewrite Wn1, Wn2.
  - apply NoDup_Permutation; [assumption..|]. intros [[n f] cu]. by rewrite Wo1, Wo2.
Qed.

(** X13. Exchanging the two tables exchanges the new and the removed
    functions and keeps the common and the excluded functions. *)
Theorem exchanging_tables (c c' : comparison) :
  diff re_search set_iter1 a old_funcs new_funcs = Ok c ->
  diff re_search set_iter2 a new_funcs old_funcs = Ok c' ->
  common_names c' = common_names c
  /\ excluded c' = excluded c
  /\ new_only_filtered c' ≡ₚ old_only_filtered c
  /\ old_only_filtered c' ≡ₚ new_only_filtered c.
Proof.
  intros H1 H2.
  pose proof (diff_common_names _ _ _ set_iter1_perm _ _ _ H1) as N1.
  pose proof (diff_common_names _ _ _ set_iter2_perm _ _ _ H2) as N2.
  destruct (diff_only_spec _ _ set_iter1_perm _ _ _ _ H1) as (Wn1 & Wo1).
  destruct (diff_only_NoDup _ _ set_iter1_perm _ _ _ _ H1) as (Un1 & Uo1).
  destruct (diff_only_spec _ _ set_iter2_perm _ _ _ _ H2) as (Wn2 & Wo2).
  destruct (diff_only_NoDup _ _ set_iter2_perm _ _ _ _ H2) as (Un2 & Uo2).
  apply only_NoDup in Un1, Uo1, Un2, Uo2.
  repeat split.
  - apply set_eq. intros n. destruct (N1 n) as [-> _]. destruct (N2 n) as [-> _]. tauto.
  - apply set_eq. intros n. destruct (N1 n) as [_ ->]. destruct (N2 n) as [_ ->]. tauto.
  - apply NoDup_Permutation; [assumption..|]. intros [[n f] cu]. by rewrite Wn2, Wo1.
  - apply NoDup_Permutation; [assumption..|]. intros [[n f] cu]. by rewrite Wo2, Wn1.
Qed.

End EngineOrders.

(** ** Display of names *)

Lemma length_append (s1 s2 : string) :
  String.length (s1 +:+ s2) = (String.length s1 + String.length s2)%nat.
Proof.
  induction s1 as [|c s1 IH]; [reflexivity|].
  change (S (String.length (s1 +:+ s2)) = S (String.length s1 + String.length s2)).
  by rewrite IH.
Qed.

Lemma length_str_take (n : nat) (s : string) :
  String.length (str_take n s) = Nat.min n (String.length s).
Proof.
  revert s. induction n as [|n IH]; intros [|c s]; cbn; try reflexivity.
  by rewrite IH.
Qed.

Lemma str_take_prefix (n : nat) (s : string) : is_prefix_of (str_take n s) s.
Proof.
  revert s. induction n as [|n IH]; intros [|c s]; cbn;
    try (by eexists; reflexivity).
  destruct (IH s) as [r Hr]. exists r.
  change (String c s = String c (str_take n s +:+ r)). by rewrite <- Hr.
Qed.

Lemma startswith_occurs (s old : string) : startswith s old = true -> occurs_in old s.
Proof.
  intros [r ->]%startswith_spec. by exists EmptyString, r.
Qed.

Lemma occurs_in_tail (old s : string) (c : ascii) :
  occurs_in old s -> occurs_in old (String c s).
Proof. intros (x & y & ->). by exists (String c x), y. Qed.

Lemma replace_from_absent (old new s : string) :
  ~ occurs_in old s -> replace_from old new 0 s = s.
Proof.
  induction s as [|c s IH]; intros Hno; [reflexivity|]. cbn [replace_from].
  destruct (startswith (String c s) old) eqn:Hst.
  - exfalso. by apply Hno, startswith_occurs.
  - rewrite IH; [reflexivity|]. intros Hocc. by apply Hno, occurs_in_tail.
Qed.

Lemma str_replace_absent (old new s : string) :
  old <> EmptyString -> ~ occurs_in old s -> str_replace old new s = s.
Proof.
  intros Hne Hno. unfold str_replace. destruct old; [done|]. by apply replace_from_absent.
Qed.

(** X14. For a maximal length of 3 or more, the displayed name is never
    longer than the maximal length: it is the name without the known
    prefixes, or its first [max_len - 3] characters followed by three
    dots. *)
Theorem shorten_func_length (name : string) (max_len : Z) :
  (3 <= max_len)%Z ->
  (Z.of_nat (String.length (shorten_func name max_len)) <= max_len)%Z
  /\ (shorten_func name max_len = strip_known_prefixes name
      \/ exists p,
           shorten_func name max_len = p +:+ "..."
           /\ is_prefix_of p (strip_known_prefixes name)
           /\ Z.of_nat (String.length p) = (max_len - 3)%Z).
Proof.
  intros Hmax. unfold shorten_func.
  destruct (Z.ltb_spec max_len (Z.of_nat (String.length (strip_known_prefixes name))))
    as [Hlong|Hshort].
  - unfold str_slice_to. destruct (Z.leb_spec 0 (max_len - 3)) as [_|]; [|lia].
    assert (Hlen : String.length (str_take (Z.to_nat (max_len - 3))
                                    (strip_known_prefixes name))
                   = Z.to_nat (max_len - 3)).
    { rewrite length_str_take. lia. }
    split.
    + rewrite length_append, Hlen. cbn. lia.
    + right. eexists. split; [reflexivity|]. split; [apply str_take_prefix|].
      rewrite Hlen. lia.
  - split; [exact Hshort | by left].
Qed.

Lemma shorten_func_length_witness :
  shorten_func "github.com/hajimehoshi/ebiten/v2/internal/graphicscommand.(*commandQueue).flushIfNeeded" 55
  = "ebiten/internal/graphicscommand.(*commandQueue).flus..."
  /\ (Z.of_nat (String.length
        (shorten_func
           "github.com/hajimehoshi/ebiten/v2/internal/graphicscommand.(*commandQueue).flushIfNeeded" 55))
      <= 55)%Z.
Proof.
  split; [vm_compute; reflexivity|].
  apply (shorten_func_length
           "github.com/hajimehoshi/ebiten/v2/internal/graphicscommand.(*commandQueue).flushIfNeeded" 55).
  lia.
Defined.

(** X15. A name in which none of the known prefixes occurs and that is not
    longer than the maximal length is displayed as it is. *)
Theorem shorten_func_unchanged (name : string) (max_len : Z) :
  (forall rule, rule ∈ shorten_rules -> ~ occurs_in rule.1 name) ->
  (Z.of_nat (String.length name) <= max_len)%Z ->
  shorten_func name max_len = name.
Proof.
  intros Hno Hlen.
  assert (Hstrip : strip_known_prefixes name = name).
  { unfold strip_known_prefixes. revert Hno. generalize shorten_rules.
    intros rules. induction rules as [|[old new] rules IH]; intros Hno; [reflexivity|].
    cbn [foldl fst snd].
    assert (Hold : ~ occurs_in old name) by (apply (Hno (old, new)); by left).
    destruct old as [|c old].
    - exfalso. apply Hold. by exists EmptyString, name.
    - rewrite str_replace_absent; [|done|exact Hold].
      apply IH. intros rule Hr. apply Hno. by right. }
  unfold shorten_func. rewrite Hstrip.
  destruct (Z.ltb_spec max_len (Z.of_nat (String.length name))); [lia | reflexivity].
Qed.

Lemma shorten_func_unchanged_witness : shorten_func "runtime.cgocall" 55 = "runtime.cgocall".
Proof.
  apply shorten_func_unchanged; [|vm_compute; discriminate].
  intros rule Hr Hocc%contains_spec. unfold shorten_rules in Hr.
  repeat (apply elem_of_cons in Hr as [->|Hr]; [vm_compute in Hocc; discriminate Hocc|]).
  by apply elem_of_nil in Hr.
Defined.

(** ** Tables *)

Local Open Scope nat_scope.

Lemma widen_length (col_widths col_widths' : list nat) (i : nat) (row : list string) :
  widen col_widths i row = Some col_widths' -> length col_widths' = length col_widths.
Proof.
  revert col_widths i. induction row as [|cell rest IH]; intros ws i; cbn.
  - by intros [= <-].
  - destruct (ws !! i) as [w|]; [|discriminate].
    intros ->%IH. apply length_insert.
Qed.

Lemma widen_None (col_widths : list nat) (i : nat) (row : list string) :
  widen col_widths i row = None <-> row <> [] /\ length col_widths < i + length row.
Proof.
  revert col_widths i. induction row as [|cell rest IH]; intros ws i; cbn.
  - split; [discriminate | intros [? _]; done].
  - destruct (ws !! i) as [w|] eqn:Hw.
    + apply lookup_lt_Some in Hw. rewrite IH, length_insert.
      split; [intros [_ ?]; split; [done | lia]|].
      intros [_ ?]. split; [|lia]. destruct rest; [cbn in *; lia | done].
    + apply lookup_ge_None in Hw. split; [|done]. intros _. split; [done | lia].
Qed.

Lemma widen_mono (col_widths col_widths' : list nat) (i : nat) (row : list string)
    (j w : nat) :
  widen col_widths i row = Some col_widths' -> col_widths !! j = Some w ->
  exists w', col_widths' !! j = Some w' /\ w <= w'.
Proof.
  revert col_widths i w. induction row as [|cell rest IH]; intros ws i w; cbn.
  - intros [= <-] Hj. eauto.
  - destruct (ws !! i) as [wi|] eqn:Hi; [|discriminate]. intros Hw Hj.
    destruct (decide (i = j)) as [->|Hne].
    + rewrite Hi in Hj. injection Hj as ->.
      destruct (IH _ _ (Nat.max w (String.length cell)) Hw) as (w' & Hw' & Hle).
      { apply list_lookup_insert_eq. by eapply lookup_lt_Some. }
      exists w'. split; [exact Hw' | lia].
    + apply (IH _ _ w Hw). by rewrite list_lookup_insert_ne.
Qed.

Lemma widen_covers (col_widths col_widths' : list nat) (i : nat) (row : list string)
    (k : nat) (cell : string) :
  widen col_widths i row = Some col_widths' -> row !! k = Some cell ->
  exists w', col_widths' !! (i + k) = Some w' /\ String.length cell <= w'.
Proof.
  revert col_widths i k. induction row as [|c rest IH]; intros ws i k; cbn.
  - intros _ Hk. by rewrite lookup_nil in Hk.
  - destruct (ws !! i) as [wi|] eqn:Hi; [|discriminate]. intros Hw Hk.
    destruct k as [|k]; cbn in Hk.
    + injection Hk as ->. rewrite Nat.add_0_r.
      destruct (widen_mono _ _ _ _ i (Nat.max wi (String.length cell)) Hw)
        as (w' & Hw' & Hle).
      { apply list_lookup_insert_eq. by eapply lookup_lt_Some. }
      exists w'. split; [exact Hw' | lia].
    + replace (i + S k) with (S i + k) by lia. by eapply IH.
Qed.

Lemma widen_all_length (col_widths col_widths' : list nat) (rows : list (list string)) :
  widen_all col_widths rows = Some col_widths' -> length col_widths' = length col_widths.
Proof.
  revert col_widths. induction rows as [|row rest IH]; intros ws; cbn.
  - by intros [= <-].
  - destruct (widen ws 0 row) as [ws1|] eqn:H1; [|discriminate].
    intros ->%IH. by eapply widen_length.
Qed.

Lemma widen_all_None (col_widths : list nat) (rows : list (list string)) :
  widen_all col_widths rows = None
  <-> exists row, row ∈ rows /\ length col_widths < length row.
Proof.
  revert col_widths. induction rows as [|row rest IH]; intros ws; cbn.
  - split; [discriminate|]. intros (r & Hr & _). by apply elem_of_nil in Hr.
  - destruct (widen ws 0 row) as [ws1|] eqn:H1.
    + rewrite IH, (widen_length _ _ _ _ H1). split.
      * intros (r & Hr & Hlen). exists r. split; [by right | exact Hlen].
      * intros (r & [Heq|Hr]%elem_of_cons & Hlen); [subst r|eauto].
        assert (widen ws 0 row = None) as Hnone.
        { apply widen_None. split; [|lia]. intros ->. cbn in Hlen. lia. }
        congruence.
    + split; [|done]. intros _. apply widen_None in H1 as [_ H1].
      exists row. split; [by left | exact H1].
Qed.

Lemma widen_all_mono (col_widths col_widths' : list nat) (rows : list (list string))
    (j w : nat) :
  widen_all col_widths rows = Some col_widths' -> col_widths !! j = Some w ->
  exists w', col_widths' !! j = Some w' /\ w <= w'.
Proof.
  revert col_widths w. induction rows as [|row rest IH]; intros ws w; cbn.
  - intros [= <-] Hj. eauto.
  - destruct (widen ws 0 row) as [ws1|] eqn:H1; [|discriminate]. intros Hall Hj.
    destruct (widen_mono _ _ _ _ _ _ H1 Hj) as (w1 & Hw1 & Hle1).
    destruct (IH _ _ Hall Hw1) as (w' & Hw' & Hle'). exists w'. split; [exact Hw' | lia].
Qed.

Lemma widen_all_covers (col_widths col_widths' : list nat) (rows : list (list string))
    (row : list string) (k : nat) (cell : string) :
  widen_all col_widths rows = Some col_widths' -> row ∈ rows -> row !! k = Some cell ->
  exists w', col_widths' !! k = Some w' /\ String.length cell <= w'.
Proof.
  revert col_widths. induction rows as [|r rest IH]; intros ws; cbn.
  - intros _ Hr. by apply elem_of_nil in Hr.
  - destruct (widen ws 0 r) as [ws1|] eqn:H1; [|discriminate].
    intros Hall [->|Hr]%elem_of_cons Hk; [|by eapply IH].
    destruct (widen_covers _ _ _ _ _ _ H1 Hk) as (w1 & Hw1 & Hle1). cbn in Hw1.
    destruct (widen_all_mono _ _ _ _ _ Hall Hw1) as (w' & Hw' & Hle').
    exists w'. split; [exact Hw' | lia].
Qed.

Lemma length_str_repeat (c : ascii) (n : nat) : String.length (str_repeat c n) = n.
Proof. induction n as [|n IH]; cbn; [reflexivity | by rewrite IH]. Qed.

Lemma length_ljust (s : string) (w : nat) :
  String.length s <= w -> String.length (ljust s w) = w.
Proof. intros Hle. unfold ljust. rewrite length_append, length_str_repeat. lia. Qed.

Lemma ljust_cells_Some (col_widths : list nat) (i : nat) (cells : list string) :
  i + length cells <= length col_widths ->
  exists padded, ljust_cells col_widths i cells = Some padded.
Proof.
  revert i. induction cells as [|cell rest IH]; intros i Hlen; cbn; [eauto|].
  cbn in Hlen. destruct (lookup_lt_is_Some_2 col_widths i) as [w ->]; [lia|].
  destruct (IH (S i)) as [padded ->]; [lia|]. eauto.
Qed.

(** Cells that fit their columns are padded to the widths of the columns. *)
Lemma ljust_cells_widths (col_widths : list nat) (i : nat) (cells padded : list string) :
  ljust_cells col_widths i cells = Some padded ->
  i + length cells = length col_widths ->
  (forall k cell w, cells !! k = Some cell -> col_widths !! (i + k) = Some w ->
                    String.length cell <= w) ->
  String.length <$> padded = drop i col_widths.
Proof.
  revert i padded. induction cells as [|cell rest IH]; intros i padded; cbn.
  - intros [= <-] Hlen _. rewrite drop_ge; [reflexivity | lia].
  - destruct (col_widths !! i) as [w|] eqn:Hw; [|discriminate].
    destruct (ljust_cells col_widths (S i) rest) as [padded'|] eqn:Hrest; [|discriminate].
    intros [= <-] Hlen Hfit. cbn.
    rewrite (drop_S _ _ _ Hw). f_equal.
    + apply length_ljust. apply (Hfit 0 cell w); [reflexivity | by rewrite Nat.add_0_r].
    + apply (IH _ _ Hrest); [lia|]. intros k c w' Hk Hw'.
      apply (Hfit (S k) c w'); [exact Hk|]. by replace (i + S k) with (S i + k) by lia.
Qed.

Lemma length_str_join (sep : string) (cells : list string) :
  String.length (str_join sep cells)
  = sum_list (String.length <$> cells) + String.length sep * (length cells - 1).
Proof.
  induction cells as [|x [|y rest] IH]; [cbn; lia | cbn; lia |].
  change (str_join sep (x :: y :: rest)) with (x +:+ sep +:+ str_join sep (y :: rest)).
  rewrite !length_append, IH. cbn [length fmap list_fmap sum_list sum_list_with]. unfold id.
  replace (S (length rest) - 1) with (length rest) by lia.
  replace (S (S (length rest)) - 1) with (S (length rest)) by lia.
  rewrite Nat.mul_succ_r. lia.
Qed.

Lemma length_table_line (sep : string) (cells : list string) (col_widths : list nat) :
  String.length sep = 3 -> String.length <$> cells = col_widths ->
  String.length (table_line sep cells)
  = 3 + sum_list col_widths + 3 * (length col_widths - 1).
Proof.
  intros Hsep <-. unfold table_line.
  rewrite !length_append, length_str_join, Hsep, length_fmap. cbn. lia.
Qed.

Lemma row_lines_Some (col_widths : list nat) (rows : list (list string)) :
  Forall (fun row => length row <= length col_widths) rows ->
  exists lines, row_lines col_widths rows = Some lines.
Proof.
  induction 1 as [|row rest Hrow _ [lines IH]]; cbn; [eauto|].
  destruct (ljust_cells_Some col_widths 0 row) as [cells ->]; [lia|].
  rewrite IH. eauto.
Qed.

Lemma row_lines_aligned (col_widths : list nat) (rows : list (list string))
    (lines : list string) :
  row_lines col_widths rows = Some lines ->
  Forall (fun row =>
            length row = length col_widths
            /\ forall k cell w, row !! k = Some cell -> col_widths !! k = Some w ->
                                String.length cell <= w) rows ->
  length lines = length rows
  /\ Forall (fun line =>
               String.length line
               = 3 + sum_list col_widths + 3 * (length col_widths - 1)) lines.
Proof.
  intros Hlines Hrows. revert lines Hlines.
  induction Hrows as [|row rest [Hlen Hfit] _ IH]; intros lines; cbn.
  - intros [= <-]. split; [reflexivity | constructor].
  - destruct (ljust_cells col_widths 0 row) as [cells|] eqn:Hcells; [|discriminate].
    destruct (row_lines col_widths rest) as [lines'|]; [|discriminate].
    intros [= <-]. destruct (IH lines' eq_refl) as [Hl Hall].
    split; [cbn; by rewrite Hl|]. constructor; [|exact Hall].
    apply length_table_line; [reflexivity|].
    by apply (ljust_cells_widths col_widths 0 row cells Hcells).
Qed.

Lemma length_dashes (col_widths : list nat) :
  String.length <$> (str_repeat "-" <$> col_widths) = col_widths.
Proof.
  induction col_widths as [|w ws IH]; cbn; [reflexivity|].
  by rewrite length_str_repeat, IH.
Qed.

Lemma print_table_rectangular (headers : list string) (rows : list (list string)) :
  rows <> [] ->
  Forall (fun row => length row = length headers) rows ->
  exists lines width,
    print_table headers rows = Some lines
    /\ length lines = 2 + length rows
    /\ Forall (fun line => String.length line = width) lines.
Proof.
  intros Hne Hrect.
  destruct (widen_all (String.length <$> headers) rows) as [ws|] eqn:Hws.
  2:{ apply widen_all_None in Hws as (row & Hrow & Hlen).
      rewrite length_fmap in Hlen.
      rewrite Forall_forall in Hrect. rewrite (Hrect row Hrow) in Hlen. lia. }
  assert (Hlen : length ws = length headers).
  { rewrite (widen_all_length _ _ _ Hws). apply length_fmap. }
  destruct (ljust_cells_Some ws 0 headers) as [hs Hhs]; [lia|].
  assert (Hhead : String.length <$> hs = ws).
  { apply (ljust_cells_widths ws 0 headers hs Hhs); [lia|].
    intros k h w Hk Hw. cbn in Hw.
    destruct (widen_all_mono _ _ _ k (String.length h) Hws) as (w' & Hw' & Hle).
    { by rewrite list_lookup_fmap, Hk. }
    congruence. }
  destruct (row_lines_Some ws rows) as [lines Hlines].
  { eapply Forall_impl; [exact Hrect|]. intros row Hr. cbn in Hr. lia. }
  destruct (row_lines_aligned ws rows lines Hlines) as [Hcount Hall].
  { apply Forall_forall. intros row Hrow. rewrite Forall_forall in Hrect.
    split; [rewrite (Hrect row Hrow); lia|].
    intros k cell w Hk Hw.
    destruct (widen_all_covers _ _ _ _ _ _ Hws Hrow Hk) as (w' & Hw' & Hle). congruence. }
  exists (table_line " | " hs
          :: table_line "-+-" (str_repeat "-" <$> take (length headers) ws) :: lines),
         (3 + sum_list ws + 3 * (length ws - 1)).
  split; [|split].
  - unfold print_table. destruct rows as [|row rest]; [done|].
    by rewrite Hws, Hhs, Hlines.
  - cbn. by rewrite Hcount.
  - constructor; [by apply length_table_line|].
    constructor; [|exact Hall].
    apply length_table_line; [reflexivity|].
    rewrite take_ge by lia. apply length_dashes.
Qed.

(** X16. Without rows the table is the single line [(none)].  With rows
    that have as many cells as there are headers, the table is written
    without an error, as a header line, a rule and one line per row, and
    all these lines have the same length: the columns are aligned. *)
Theorem print_table_aligned (headers : list string) :
  print_table headers [] = Some ["  (none)" +:+ nl]
  /\ forall rows,
       rows <> [] ->
       Forall (fun row => length row = length headers) rows ->
       exists lines width,
         print_table headers rows = Some lines
         /\ length lines = 2 + length rows
         /\ Forall (fun line => String.length line = width) lines.
Proof. split; [reflexivity | apply print_table_rectangular]. Qed.

Lemma print_table_aligned_witness :
  exists lines width,
    print_table only_headers [["runtime.cgocall"; "16,141ms"; "16,515ms"];
                              ["runtime.mallocgc"; "250ms"; "812ms"]] = Some lines
    /\ length lines = 4
    /\ Forall (fun line => String.length line = width) lines.
Proof.
  apply (proj2 (print_table_aligned only_headers)).
  - discriminate.
  - repeat constructor.
Defined.

(** X17. A table fails, with the [IndexError] of line 194, exactly when
    one of its rows has more cells than there are headers. *)
Theorem print_table_fails_iff (headers : list string) (rows : list (list string)) :
  print_table headers rows = None
  <-> exists row, row ∈ rows /\ length headers < length row.
Proof.
  split.
  - unfold print_table. destruct rows as [|row0 rest]; [discriminate|].
    destruct (widen_all (String.length <$> headers) (row0 :: rest)) as [ws|] eqn:Hws.
    + assert (Hlen : length ws = length headers).
      { rewrite (widen_all_length _ _ _ Hws). apply length_fmap. }
      destruct (ljust_cells_Some ws 0 headers) as [hs Hhs]; [lia|].
      destruct (row_lines_Some ws (row0 :: rest)) as [lines Hlines].
      { apply Forall_forall. intros row Hrow.
        destruct (le_lt_dec (length row) (length ws)) as [Hle|Hgt]; [exact Hle|].
        assert (widen_all (String.length <$> headers) (row0 :: rest) = None) as Hnone.
        { apply widen_all_None. exists row. split; [exact Hrow|].
          rewrite length_fmap. lia. }
        congruence. }
      rewrite Hhs, Hlines. discriminate.
    + intros _. apply widen_all_None in Hws as (row & Hrow & Hlen).
      rewrite length_fmap in Hlen. eauto.
  - intros (row & Hrow & Hlen). unfold print_table.
    destruct rows as [|row0 rest]; [by apply elem_of_nil in Hrow|].
    assert (widen_all (String.length <$> headers) (row0 :: rest) = None) as ->; [|done].
    apply widen_all_None. exists row. split; [exact Hrow|]. by rewrite length_fmap.
Qed.

(** ** The tables of the report *)

Lemma list_slice_to_sublist {A : Type} (k : Z) (l : list A) :
  list_slice_to k l `sublist_of` l.
Proof. unfold list_slice_to. destruct (0 <=? k)%Z; apply sublist_take. Qed.

Lemma list_slice_to_all {A : Type} (k : Z) (l : list A) :
  (Z.of_nat (length l) <= k)%Z -> list_slice_to k l = l.
Proof.
  intros Hk. unfold list_slice_to. destruct (Z.leb_spec 0 k); [|lia].
  apply take_ge. lia.
Qed.

Lemma list_slice_to_length {A : Type} (k : Z) (l : list A) :
  (0 <= k)%Z -> length (list_slice_to k l) = Nat.min (Z.to_nat k) (length l).
Proof.
  intros Hk. unfold list_slice_to. destruct (Z.leb_spec 0 k); [|lia]. apply length_take.
Qed.

Lemma sublist_StronglySorted {A : Type} (R : A -> A -> Prop) (l1 l2 : list A) :
  l1 `sublist_of` l2 -> StronglySorted R l2 -> StronglySorted R l1.
Proof.
  induction 1 as [|x l1 l2 Hsub IH|x l1 l2 Hsub IH]; intros Hs.
  - constructor.
  - apply StronglySorted_inv in Hs as [Hs Hx]. constructor; [by apply IH|].
    apply Forall_forall. intros y Hy. rewrite Forall_forall in Hx.
    apply Hx. by eapply elem_of_sublist.
  - apply StronglySorted_inv in Hs as [Hs _]. by apply IH.
Qed.

Lemma category_groups_elem_of (top : Z) (entries : list entry) (cat : category)
    (es : list entry) :
  (cat, es) ∈ category_groups top entries
  <-> category_entries top entries cat = Some es.
Proof.
  unfold category_groups. rewrite list_elem_of_omap. split.
  - intros (cat' & _ & Hf). destruct (category_entries top entries cat') eqn:E;
      cbn in Hf; [|discriminate]. by injection Hf as -> ->.
  - intros Hf. exists cat. split; [|by rewrite Hf].
    unfold categories. rewrite !elem_of_cons. destruct cat; auto 10.
Qed.

Lemma category_groups_fst (top : Z) (entries : list entry) :
  (category_groups top entries).*1 `sublist_of` categories.
Proof.
  unfold category_groups. induction categories as [|cat cats IH]; cbn; [constructor|].
  destruct (category_entries top entries cat); cbn;
    [by apply sublist_skip | by apply sublist_cons].
Qed.

Lemma filter_by_category_perm (entries : list entry) :
  concat ((fun cat => filter (fun r => e_category r = cat) entries) <$> categories)
  ≡ₚ entries.
Proof.
  unfold categories. cbn [fmap list_fmap concat]. rewrite app_nil_r.
  induction entries as [|x l IH]; [reflexivity|].
  rewrite !filter_cons.
  destruct (e_category x); repeat case_decide; try congruence; cbn;
    rewrite <- ?Permutation_middle; by rewrite IH.
Qed.

(** X18. Each table of regressions (or of improvements) holds entries of
    its category only, in the order of the sorted list, hence sorted like
    it; for a positive [top] it is not empty and has at most [top]
    entries; and the tables come in the display order of the categories,
    one table at most for each. *)
Theorem category_table_entries (top : Z) (entries : list entry) :
  (forall cat es,
     (cat, es) ∈ category_groups top entries ->
     es `sublist_of` entries
     /\ Forall (fun e => e_category e = cat) es
     /\ (exists e, e ∈ entries /\ e_category e = cat)
     /\ ((0 < top)%Z -> es <> [] /\ (Z.of_nat (length es) <= top)%Z)
     /\ forall R : entry -> entry -> Prop, StronglySorted R entries -> StronglySorted R es)
  /\ (category_groups top entries).*1 `sublist_of` categories
  /\ NoDup (category_groups top entries).*1.
Proof.
  split; [|split; [apply category_groups_fst|]].
  2:{ eapply sublist_NoDup; [|apply category_groups_fst].
      unfold categories.
      repeat constructor; rewrite ?elem_of_cons, ?elem_of_nil; intuition discriminate. }
  intros cat es Hin%category_groups_elem_of. unfold category_entries in Hin.
  destruct (filter (fun r => e_category r = cat) entries) as [|e0 rest] eqn:Hf;
    [discriminate|]. injection Hin as <-.
  assert (Hsub : list_slice_to top (e0 :: rest) `sublist_of` entries).
  { etrans; [apply list_slice_to_sublist|]. rewrite <- Hf. apply sublist_filter. }
  assert (He0 : e0 ∈ entries /\ e_category e0 = cat).
  { assert (e0 ∈ filter (fun r => e_category r = cat) entries) as Hin
      by (rewrite Hf; by left).
    apply list_elem_of_filter in Hin. tauto. }
  split; [exact Hsub|]. split; [|split; [|split]].
  - apply Forall_forall. intros e He.
    assert (e ∈ filter (fun r => e_category r = cat) entries) as Hin.
    { rewrite Hf. eapply elem_of_sublist; [exact He | apply list_slice_to_sublist]. }
    apply list_elem_of_filter in Hin. tauto.
  - exists e0. exact He0.
  - intros Htop. split.
    + intros Hnil. apply (f_equal length) in Hnil.
      rewrite list_slice_to_length in Hnil by lia. cbn in Hnil. lia.
    + rewrite list_slice_to_length by lia. lia.
  - intros R. by apply sublist_StronglySorted.
Qed.

Lemma category_table_entries_witness :
  let e := {| e_name := "runtime.cgocall"; e_category := RUNTIME;
              e_old_flat := F64.zero; e_new_flat := F64.zero;
              e_flat_delta := F64.zero; e_flat_pct := F64.zero;
              e_old_cum := F64.zero; e_new_cum := F64.zero;
              e_cum_delta := F64.zero; e_cum_pct := F64.zero |} in
  category_groups 1 [e; e] = [(RUNTIME, [e])]
  /\ [e] `sublist_of` [e; e] /\ [e] <> [] /\ (Z.of_nat (length [e]) <= 1)%Z.
Proof.
  intros e. split; [reflexivity|].
  destruct (proj1 (category_table_entries 1 [e; e]) RUNTIME [e]) as (Hs & _ & _ & Hb & _).
  - left.
  - destruct Hb as [Hne Hle]; [lia|]. auto.
Defined.

(** X19. When [top] is at least the number of entries, the tables hold
    every entry once: the display order of line 301 names every category
    that [categorize_function] can give, so no regression and no
    improvement is left out of the report. *)
Theorem category_tables_cover (top : Z) (entries : list entry) :
  (Z.of_nat (length entries) <= top)%Z ->
  concat (category_groups top entries).*2 ≡ₚ entries.
Proof.
  intros Htop. rewrite <- (filter_by_category_perm entries) at 2.
  unfold category_groups. induction categories as [|cat cats IH]; [reflexivity|].
  cbn. unfold category_entries at 1.
  destruct (filter (fun r => e_category r = cat) entries) as [|e0 rest] eqn:Hf.
  - cbn. exact IH.
  - cbn [fmap option_fmap option_map list_fmap snd concat]. rewrite IH.
    rewrite list_slice_to_all; [reflexivity|].
    pose proof (sublist_length _ _ (sublist_filter (fun r => e_category r = cat) entries)) as Hl.
    rewrite Hf in Hl. lia.
Qed.

Lemma category_tables_cover_witness :
  let e1 := {| e_name := "runtime.cgocall"; e_category := RUNTIME;
               e_old_flat := F64.zero; e_new_flat := F64.zero;
               e_flat_delta := F64.zero; e_flat_pct := F64.zero;
               e_old_cum := F64.zero; e_new_cum := F64.zero;
               e_cum_delta := F64.zero; e_cum_pct := F64.zero |} in
  let e2 := {| e_name := "game_main/world.Update"; e_category := YOUR_CODE;
               e_old_flat := F64.zero; e_new_flat := F64.zero;
               e_flat_delta := F64.zero; e_flat_pct := F64.zero;
               e_old_cum := F64.zero; e_new_cum := F64.zero;
               e_cum_delta := F64.zero; e_cum_pct := F64.zero |} in
  category_groups 20 [e1; e2] = [(YOUR_CODE, [e2]); (RUNTIME, [e1])]
  /\ concat (category_groups 20 [e1; e2]).*2 ≡ₚ [e1; e2].
Proof.
  intros e1 e2. split; [reflexivity|].
  apply (category_tables_cover 20 [e1; e2]). cbn. lia.
Defined.

Section RowsFacts.
Variables fmt_0f fmt_comma_0f : float -> string.

Lemma entry_row_ok (e : entry) :
  exists row, entry_row fmt_0f fmt_comma_0f e = Ok row /\ length row = length entry_headers.
Proof.
  unfold entry_row.
  destruct (format_change_ok fmt_0f (e_old_flat e) (e_new_flat e)) as [s1 ->].
  destruct (format_change_ok fmt_0f (e_old_cum e) (e_new_cum e)) as [s2 ->].
  cbn. eauto.
Qed.

Lemma entry_rows_ok (entries : list entry) :
  exists rows,
    entry_rows fmt_0f fmt_comma_0f entries = Ok rows
    /\ length rows = length entries
    /\ Forall (fun row => length row = length entry_headers) rows.
Proof.
  induction entries as [|e rest (rows & IH & Hlen & Hall)]; cbn.
  - exists []. auto.
  - destruct (entry_row_ok e) as (row & -> & Hrow). rewrite IH. cbn.
    exists (row :: rows). split; [reflexivity|]. split; [cbn; by rewrite Hlen|].
    by constructor.
Qed.

(** X20. The rows that [main] builds for its tables always fit the
    headers: a table of regressions or improvements, and a table of new or
    removed functions, is written without [ZeroDivisionError] and without
    [IndexError], with one row for each entry, and with all its lines of
    the same length. *)
Theorem report_tables_written :
  (forall entries,
     exists rows lines width,
       entry_rows fmt_0f fmt_comma_0f entries = Ok rows
       /\ length rows = length entries
       /\ print_table entry_headers rows = Some lines
       /\ (entries <> [] -> length lines = 2 + length entries)
       /\ Forall (fun line => String.length line = width) lines)
  /\ (forall top items,
        exists lines width,
          print_table only_headers (only_rows fmt_0f fmt_comma_0f top items) = Some lines
          /\ Forall (fun line => String.length line = width) lines).
Proof.
  split.
  - intros entries. destruct (entry_rows_ok entries) as (rows & Hrows & Hlen & Hall).
    destruct rows as [|row rest].
    + exists [], ["  (none)" +:+ nl], (String.length ("  (none)" +:+ nl)).
      repeat split; try done.
      * intros Hne. destruct entries; [done | discriminate].
      * by repeat constructor.
    + destruct (print_table_rectangular entry_headers (row :: rest)) as (lines & w & Hp & Hl & Hw);
        [done | exact Hall |].
      exists (row :: rest), lines, w. repeat split; try assumption.
      intros _. by rewrite Hl, Hlen.
  - intros top items. unfold only_rows.
    destruct (list_slice_to top items) as [|[[n f] c] rest].
    + exists ["  (none)" +:+ nl], (String.length ("  (none)" +:+ nl)).
      split; [reflexivity | by repeat constructor].
    + destruct (print_table_rectangular only_headers
                  ((fun '(n, f, c) =>
                      [shorten_func n 55; format_ms fmt_0f fmt_comma_0f f;
                       format_ms fmt_0f fmt_comma_0f c]) <$> ((n, f, c) :: rest)))
        as (lines & w & Hp & _ & Hw).
      * done.
      * apply Forall_fmap, Forall_forall. by intros [[n' f'] c'] _.
      * eauto.
Qed.

End RowsFacts.

(** ** [main] as a whole *)


(** ** [main] with the exceptions of [re.search] *)

Section RaisingFacts.
Variable re_search : string -> string -> option bool.




Variable set_iter : gset string -> list string.
Variables fmt_0f fmt_1f fmt_comma_0f : float -> string.




Hypothesis set_iter_perm : forall X : gset string, set_iter X ≡ₚ elements X.






End RaisingFacts.


(** ** The further properties on concrete tables *)

Lemma compared_names_partition_witness :
  let old_funcs : gmap string (float * float) :=
    <[ "f" := (F64.of_Z 100, F64.of_Z 100) ]> {[ "g" := (F64.of_Z 100, F64.of_Z 100) ]} in
  let new_funcs : gmap string (float * float) :=
    <[ "f" := (F64.of_Z 200, F64.of_Z 200) ]> {[ "g" := (F64.of_Z 100, F64.of_Z 100) ]} in
  exists c,
    diff literal_search elements default_args old_funcs new_funcs = Ok c
    /\ e_name <$> (regressions c ++ improvements c ++ stable c)%list
       ≡ₚ elements (common_names c)
    /\ NoDup (e_name <$> (regressions c ++ improvements c ++ stable c)%list).
Proof.
  intros old_funcs new_funcs.
  destruct (diff literal_search elements default_args old_funcs new_funcs) as [c|] eqn:Hc;
    [|vm_compute in Hc; discriminate Hc].
  exists c. split; [reflexivity|].
  destruct (compared_names_partition literal_search elements (fun X => reflexivity _)
              default_args old_funcs new_funcs c Hc) as (Hp & Hn & _).
  auto.
Defined.

Lemma nothing_to_compare_witness :
  let old_funcs : gmap string (float * float) := {[ "f" := (F64.of_Z 100, F64.of_Z 100) ]} in
  let new_funcs : gmap string (float * float) := {[ "g" := (F64.of_Z 100, F64.of_Z 100) ]} in
  exists c,
    diff literal_search elements default_args old_funcs new_funcs = Ok c
    /\ regressions c = [] /\ improvements c = [] /\ stable c = []
    /\ common_names c = ∅
    /\ excluded c = dom old_funcs ∩ dom new_funcs.
Proof.
  intros old_funcs new_funcs.
  destruct (diff literal_search elements default_args old_funcs new_funcs) as [c|] eqn:Hc;
    [|vm_compute in Hc; discriminate Hc].
  exists c. split; [reflexivity|].
  apply (nothing_to_compare literal_search elements (fun X => reflexivity _)
           default_args old_funcs new_funcs c); [|exact Hc].
  intros name Ho Hn. unfold old_funcs in Ho. unfold new_funcs in Hn.
  rewrite dom_singleton_L in Ho, Hn.
  apply elem_of_singleton in Ho, Hn. subst name. discriminate Hn.
Defined.

Lemma new_and_removed_exactly_witness :
  let old_funcs : gmap string (float * float) := {[ "gone" := (F64.of_Z 10, F64.of_Z 250) ]} in
  let new_funcs : gmap string (float * float) := {[ "fresh" := (F64.of_Z 10, F64.of_Z 300) ]} in
  exists c,
    diff literal_search elements default_args old_funcs new_funcs = Ok c
    /\ (forall name flat cum,
          (name, flat, cum) ∈ new_only_filtered c
          <-> new_funcs !! name = Some (flat, cum) /\ (name ∉ dom old_funcs)
              /\ should_exclude literal_search name (exclude default_args) = false
              /\ F64.gtb cum (F64.of_Z 200) = true)
    /\ NoDup ((fun x => x.1.1) <$> new_only_filtered c).
Proof.
  intros old_funcs new_funcs.
  destruct (diff literal_search elements default_args old_funcs new_funcs) as [c|] eqn:Hc;
    [|vm_compute in Hc; discriminate Hc].
  exists c. split; [reflexivity|].
  destruct (new_and_removed_exactly literal_search elements (fun X => reflexivity _)
              default_args old_funcs new_funcs c Hc) as (Hn & _ & Un & _).
  auto.
Defined.

Lemma excluded_by_some_pattern_witness :
  let old_funcs : gmap string (float * float) := {[ "f" := (F64.of_Z 100, F64.of_Z 100) ]} in
  let new_funcs : gmap string (float * float) := {[ "f" := (F64.of_Z 900, F64.of_Z 900) ]} in
  exists c,
    diff literal_search elements default_args old_funcs new_funcs = Ok c
    /\ excluded c = ∅ /\ common_names c = dom old_funcs ∩ dom new_funcs.
Proof.
  intros old_funcs new_funcs.
  destruct (diff literal_search elements default_args old_funcs new_funcs) as [c|] eqn:Hc;
    [|vm_compute in Hc; discriminate Hc].
  exists c. split; [reflexivity|].
  apply (excluded_by_some_pattern literal_search elements (fun X => reflexivity _)
           default_args old_funcs new_funcs c Hc).
  reflexivity.
Defined.

Lemma iteration_order_irrelevant_witness :
  let old_funcs : gmap string (float * float) :=
    <[ "f" := (F64.of_Z 100, F64.of_Z 100) ]> {[ "g" := (F64.of_Z 100, F64.of_Z 100) ]} in
  let new_funcs : gmap string (float * float) :=
    <[ "f" := (F64.of_Z 200, F64.of_Z 200) ]> {[ "g" := (F64.of_Z 200, F64.of_Z 200) ]} in
  exists c1 c2,
    diff literal_search elements default_args old_funcs new_funcs = Ok c1
    /\ diff literal_search (fun X => reverse (elements X)) default_args old_funcs new_funcs
       = Ok c2
    /\ e_name <$> regressions c1 = ["g"; "f"]
    /\ e_name <$> regressions c2 = ["f"; "g"]
    /\ regressions c1 ≡ₚ regressions c2.
Proof.
  intros old_funcs new_funcs.
  destruct (diff literal_search elements default_args old_funcs new_funcs) as [c1|] eqn:H1;
    [|vm_compute in H1; discriminate H1].
  destruct (diff literal_search (fun X => reverse (elements X)) default_args
              old_funcs new_funcs) as [c2|] eqn:H2;
    [|vm_compute in H2; discriminate H2].
  exists c1, c2. split; [reflexivity|]. split; [reflexivity|].
  split; [|split].
  - assert (Some (e_name <$> regressions c1) = Some ["g"; "f"]) as [= ->]; [|reflexivity].
    change (Some (e_name <$> regressions c1))
      with (match Ok c1 with Ok c => Some (e_name <$> regressions c) | Raise _ => None end).
    rewrite <- H1. vm_compute. reflexivity.
  - assert (Some (e_name <$> regressions c2) = Some ["f"; "g"]) as [= ->]; [|reflexivity].
    change (Some (e_name <$> regressions c2))
      with (match Ok c2 with Ok c => Some (e_name <$> regressions c) | Raise _ => None end).
    rewrite <- H2. vm_compute. reflexivity.
  - apply (iteration_order_irrelevant literal_search elements
             (fun X => reverse (elements X)) (fun X => reflexivity _)
             (fun X => reverse_Permutation (elements X))
             default_args old_funcs new_funcs c1 c2 H1 H2).
Defined.

Lemma exchanging_tables_witness :
  let old_funcs : gmap string (float * float) := {[ "gone" := (F64.of_Z 10, F64.of_Z 250) ]} in
  let new_funcs : gmap string (float * float) := {[ "fresh" := (F64.of_Z 10, F64.of_Z 300) ]} in
  exists c c',
    diff literal_search elements default_args old_funcs new_funcs = Ok c
    /\ diff literal_search elements default_args new_funcs old_funcs = Ok c'
    /\ new_only_filtered c' ≡ₚ old_only_filtered c
    /\ old_only_filtered c' ≡ₚ new_only_filtered c.
Proof.
  intros old_funcs new_funcs.
  destruct (diff literal_search elements default_args old_funcs new_funcs) as [c|] eqn:H1;
    [|vm_compute in H1; discriminate H1].
  destruct (diff literal_search elements default_args new_funcs old_funcs) as [c'|] eqn:H2;
    [|vm_compute in H2; discriminate H2].
  exists c, c'. split; [reflexivity|]. split; [reflexivity|].
  apply (exchanging_tables literal_search elements elements (fun X => reflexivity _)
           (fun X => reflexivity _) default_args old_funcs new_funcs c c' H1 H2).
Defined.

(** ** Direction of the changes and order of the tables *)

Lemma binary_round_aux_sign (sx : bool) (mx ex : Z) (lx : location) :
  match binary_round_aux F64.prec F64.emax sx mx ex lx with
  | S754_zero s | S754_infinity s | S754_finite s _ _ => s = sx
  | S754_nan => True
  end.
Proof.
  unfold binary_round_aux.
  destruct (shr_fexp F64.prec F64.emax mx ex lx) as [mrs' e'].
  destruct (shr_fexp F64.prec F64.emax _ e' loc_Exact) as [mrs'' e''].
  destruct (shr_m mrs'') as [|p|p]; [reflexivity | | exact I].
  destruct (Z.leb e'' (F64.emax - F64.prec)); reflexivity.
Qed.

Lemma above_threshold_positive (pct t : float) :
  not_negative t -> F64.gtb pct t = true -> F64.gtb pct F64.zero = true.
Proof.
  unfold not_negative. f64. unfold SFltb.
  float_cases pct; float_cases t; simpl; try done.
Qed.

Lemma below_opposite_negative (pct t : float) :
  not_negative t -> F64.ltb pct (F64.neg t) = true -> F64.ltb pct F64.zero = true.
Proof.
  unfold not_negative. f64. unfold SFltb.
  float_cases pct; float_cases t; simpl; try done.
Qed.

Lemma times_100_sign (q : float) :
  (F64.gtb (F64.mul q (F64.of_Z 100)) F64.zero = true -> F64.gtb q F64.zero = true)
  /\ (F64.ltb (F64.mul q (F64.of_Z 100)) F64.zero = true -> F64.ltb q F64.zero = true).
Proof.
  assert (exists m e, F64.of_Z 100 = S754_finite false m e) as (m & e & ->)
    by (vm_compute; eauto).
  f64. unfold F64.mul, SFmul, SFltb.
  destruct q as [s|s| |s mq eq].
  - destruct s; simpl; split; done.
  - destruct s; simpl; split; done.
  - simpl; split; done.
  - pose proof (binary_round_aux_sign (xorb s false) (Z.pos (mq * m)) (eq + e) loc_Exact)
      as Hs.
    destruct (binary_round_aux _ _ _ _ _ _) as [s'|s'| |s' m' e'];
      try subst s'; destruct s; simpl; split; done.
Qed.

Lemma quotient_sign (delta old : float) :
  F64.gtb old F64.zero = true ->
  (F64.gtb (SFdiv F64.prec F64.emax delta old) F64.zero = true ->
   F64.gtb delta F64.zero = true)
  /\ (F64.ltb (SFdiv F64.prec F64.emax delta old) F64.zero = true ->
      F64.ltb delta F64.zero = true).
Proof.
  f64. unfold SFltb at 1.
  destruct old as [so|so| |so mo eo]; try destruct so; simpl; try done; intros _;
    unfold SFdiv, SFltb;
    destruct delta as [s|s| |s md ed];
    try (destruct s; simpl; split; done); try (simpl; split; done).
  destruct (SFdiv_core_binary _ _ _ _ _ _) as [[mz ez] lz].
  pose proof (binary_round_aux_sign (xorb s false) mz ez lz) as Hs.
  destruct (binary_round_aux _ _ _ _ _ _) as [s'|s'| |s' m' e'];
    try subst s'; destruct s; simpl; split; done.
Qed.

Lemma pct_change_sign (old new : float) (pct : float) :
  is_cost old = true ->
  pct_change old new (F64.sub new old) = Ok pct ->
  (F64.gtb pct F64.zero = true -> F64.gtb (F64.sub new old) F64.zero = true)
  /\ (F64.ltb pct F64.zero = true -> F64.ltb (F64.sub new old) F64.zero = true).
Proof.
  intros Hold. unfold pct_change.
  destruct (F64.gtb old F64.zero) eqn:Hpos.
  - unfold F64.div. rewrite (positive_not_zero _ Hpos). cbn. intros [= <-].
    destruct (times_100_sign (SFdiv F64.prec F64.emax (F64.sub new old) old)) as [Hp Hn].
    destruct (quotient_sign (F64.sub new old) old Hpos) as [Hp' Hn']. auto.
  - assert (old = S754_zero false) as ->.
    { revert Hpos. f64. unfold SFltb. destruct old as [[]|[]| |[] m e]; simpl; done. }
    destruct (F64.gtb new F64.zero) eqn:Hnew; intros [= <-].
    + split; [intros _ | intros H; vm_compute in H; discriminate H].
      revert Hnew. f64. unfold F64.sub, SFsub, SFltb.
      destruct new as [[]|[]| |[] m e]; simpl; done.
    + split; intros H; vm_compute in H; discriminate H.
Qed.

(** X22. With a threshold that is not negative and baseline costs that are
    not negative, a regression is a function of which one cost rose
    (positive delta), and an improvement a function of which one cost fell
    (negative delta). *)
Theorem regression_is_increase (a : args)
    (old_funcs new_funcs : gmap string (float * float)) (name : string) (e : entry) :
  not_negative (threshold a) ->
  make_entry old_funcs new_funcs name = Ok e ->
  is_cost (e_old_flat e) = true -> is_cost (e_old_cum e) = true ->
  (regression_condition a e ->
   F64.gtb (e_cum_delta e) F64.zero = true \/ F64.gtb (e_flat_delta e) F64.zero = true)
  /\ (improvement_condition a e ->
      F64.ltb (e_cum_delta e) F64.zero = true \/ F64.ltb (e_flat_delta e) F64.zero = true).
Proof.
  intros Ht He Hof Hoc.
  destruct (make_entry_inv _ _ _ _ He)
    as (of_ & oc & nf & nc & _ & _ & _ & _ & Eof & Enf & Eoc & Enc & Efd & Ecd & Hfp & Hcp).
  rewrite Eof in Hof. rewrite Eoc in Hoc. rewrite Efd, Ecd.
  destruct (pct_change_sign _ _ _ Hof Hfp) as [Hfup Hfdown].
  destruct (pct_change_sign _ _ _ Hoc Hcp) as [Hcup Hcdown].
  split.
  - intros [[Hp _]|[Hp _]]; [left; apply Hcup | right; apply Hfup];
      by eapply above_threshold_positive.
  - intros [[Hp _]|[Hp _]]; [left; apply Hcdown | right; apply Hfdown];
      by eapply below_opposite_negative.
Qed.

Lemma regression_is_increase_witness :
  let old_funcs : gmap string (float * float) := {[ "f" := (F64.of_Z 100, F64.of_Z 100) ]} in
  let new_funcs : gmap string (float * float) := {[ "f" := (F64.of_Z 200, F64.of_Z 200) ]} in
  exists e,
    make_entry old_funcs new_funcs "f" = Ok e
    /\ regression_condition default_args e
    /\ (F64.gtb (e_cum_delta e) F64.zero = true \/ F64.gtb (e_flat_delta e) F64.zero = true).
Proof.
  intros old_funcs new_funcs.
  pose (e := {| e_name := "f"; e_category := OTHER;
                e_old_flat := F64.of_Z 100; e_new_flat := F64.of_Z 200;
                e_flat_delta := F64.of_Z 100; e_flat_pct := F64.of_Z 100;
                e_old_cum := F64.of_Z 100; e_new_cum := F64.of_Z 200;
                e_cum_delta := F64.of_Z 100; e_cum_pct := F64.of_Z 100 |}).
  assert (He : make_entry old_funcs new_funcs "f" = Ok e) by (vm_compute; reflexivity).
  assert (Hr : regression_condition default_args e) by (left; split; vm_compute; reflexivity).
  exists e. split; [exact He|]. split; [exact Hr|].
  apply (regression_is_increase default_args old_funcs new_funcs "f" e);
    [reflexivity | exact He | reflexivity | reflexivity | exact Hr].
Defined.

Lemma category_entries_sublist (top : Z) (entries : list entry) (cat : category)
    (es : list entry) :
  category_entries top entries cat = Some es -> es `sublist_of` entries.
Proof.
  unfold category_entries.
  destruct (filter (fun r => e_category r = cat) entries) as [|e0 rest] eqn:Hf;
    [discriminate|]. intros [= <-].
  etrans; [apply list_slice_to_sublist|]. rewrite <- Hf. apply sublist_filter.
Qed.

Lemma diff_lists_sorted (re_search : string -> string -> bool)
    (set_iter : gset string -> list string) (a : args)
    (old_funcs new_funcs : gmap string (float * float)) (c : comparison) :
  finite_costs old_funcs -> finite_costs new_funcs ->
  diff re_search set_iter a old_funcs new_funcs = Ok c ->
  StronglySorted (fun x y => F64.geb (e_cum_delta x) (e_cum_delta y) = true) (regressions c)
  /\ StronglySorted (fun x y => F64.geb (e_cum_delta y) (e_cum_delta x) = true)
       (improvements c).
Proof.
  intros Fo Fn Hc.
  pose proof (diff_entries _ _ _ _ _ _ Hc) as Hent.
  assert (Hnan : forall e, built old_funcs new_funcs (set_iter (common_names c)) e ->
                   F64.is_nan (e_cum_delta e) = false).
  { intros e [_ He].
    destruct (make_entry_inv _ _ _ _ He)
      as (f & cu & f' & cu' & Ho & Hn & _ & _ & _ & _ & _ & _ & _ & -> & _).
    apply sub_finite_not_nan; [by eapply Fn | by eapply Fo]. }
  destruct (diff_inv _ _ _ _ _ _ Hc) as (b & nof & oof & _ & _ & Er & Ei & _).
  split.
  - rewrite Er. apply sort_by_key_descending, Forall_forall. intros e He.
    assert (Hin : e ∈ regressions c) by (rewrite Er; by apply stable_sort_elem_of).
    apply Hnan. by destruct (proj1 (proj1 (Hent e)) Hin) as [Hb _].
  - rewrite Ei. apply sort_by_key_ascending, Forall_forall. intros e He.
    assert (Hin : e ∈ improvements c) by (rewrite Ei; by apply stable_sort_elem_of).
    apply Hnan. by destruct (proj1 (proj1 (proj2 (Hent e))) Hin) as [Hb _].
Qed.

(** X23. For cost tables of finite floats, every table of regressions of
    the report is in non-increasing order of cumulative delta and every
    table of improvements in non-decreasing order, whatever [top] is: the
    grouping by category and the cut to [top] rows keep the order of the
    sort. *)
Theorem report_tables_sorted (re_search : string -> string -> bool)
    (set_iter : gset string -> list string) (a : args)
    (old_funcs new_funcs : gmap string (float * float)) (c : comparison) (top : Z) :
  finite_costs old_funcs -> finite_costs new_funcs ->
  diff re_search set_iter a old_funcs new_funcs = Ok c ->
  (forall cat es,
     (cat, es) ∈ category_groups top (regressions c) ->
     StronglySorted (fun x y => F64.geb (e_cum_delta x) (e_cum_delta y) = true) es)
  /\ (forall cat es,
        (cat, es) ∈ category_groups top (improvements c) ->
        StronglySorted (fun x y => F64.geb (e_cum_delta y) (e_cum_delta x) = true) es).
Proof.
  intros Fo Fn Hc.
  destruct (diff_lists_sorted _ _ _ _ _ _ Fo Fn Hc) as [Hr Hi].
  split; intros cat es Hin%category_groups_elem_of%category_entries_sublist;
    by eapply sublist_StronglySorted.
Qed.

Lemma report_tables_sorted_witness :
  let old_funcs : gmap string (float * float) :=
    <[ "runtime.f" := (F64.of_Z 100, F64.of_Z 100) ]>
      {[ "runtime.g" := (F64.of_Z 100, F64.of_Z 100) ]} in
  let new_funcs : gmap string (float * float) :=
    <[ "runtime.f" := (F64.of_Z 200, F64.of_Z 200) ]>
      {[ "runtime.g" := (F64.of_Z 300, F64.of_Z 300) ]} in
  exists c,
    diff literal_search elements default_args old_funcs new_funcs = Ok c
    /\ (forall cat es,
          (cat, es) ∈ category_groups 20 (regressions c) ->
          StronglySorted (fun x y => F64.geb (e_cum_delta x) (e_cum_delta y) = true) es)
    /\ (forall cat es,
          (cat, es) ∈ category_groups 20 (improvements c) ->
          StronglySorted (fun x y => F64.geb (e_cum_delta y) (e_cum_delta x) = true) es).
Proof.
  intros old_funcs new_funcs.
  assert (Fo : finite_costs old_funcs).
  { intros name flat cum H. unfold old_funcs in H.
    apply lookup_insert_Some in H as [[_ [= <- <-]]|[_ H]]; [done|].
    apply lookup_singleton_Some in H as [_ [= <- <-]]. done. }
  assert (Fn : finite_costs new_funcs).
  { intros name flat cum H. unfold new_funcs in H.
    apply lookup_insert_Some in H as [[_ [= <- <-]]|[_ H]]; [done|].
    apply lookup_singleton_Some in H as [_ [= <- <-]]. done. }
  destruct (diff literal_search elements default_args old_funcs new_funcs) as [c|] eqn:Hc;
    [|vm_compute in Hc; discriminate Hc].
  exists c. split; [reflexivity|].
  exact (report_tables_sorted literal_search elements default_args
           old_funcs new_funcs c 20 Fo Fn Hc).
Defined.

(** ** [main] with the exceptions of [re.search], on concrete outputs

    The pattern [*Path] is not a regular expression. *)



